(** * Heading-outline extraction (processor.py): a shallow embedding

    The pipeline of [process_pdf] is embedded function by function:
    [extract_lines], [drop_repeating_headers], [merge_wrapped_heading_lines],
    [score_lines], [scored_threshold], [detect_title], [assign_levels].

    Data is kept as the program has it: Python [float]s are binary64 numbers
    ([PrimFloat.float]), Python [str]s are sequences of Unicode code points,
    the dictionaries of the program are records, and a Python exception is
    a [Raise] of the [result] type. *)

From Stdlib Require Import String Ascii DecimalString.
From Stdlib Require Import List ZArith NArith QArith Bool Lia.
From Stdlib Require Import Floats Permutation Sorted.
Import ListNotations.
Local Close Scope Q_scope.
Local Open Scope list_scope.

Set Implicit Arguments.

(** ** Exceptions *)

Inductive exn : Type :=
| StatisticsError | ValueError | OverflowError | AttributeError
| IndexError | TypeError.

(** What a call gives: a value, or a raised exception. *)
Inductive result (A : Type) : Type :=
| Ok (a : A)
| Raise (e : exn).

Arguments Ok {A} a.
Arguments Raise {A} e.

Definition bind {A B : Type} (m : result A) (f : A -> result B) : result B :=
  match m with
  | Ok a => f a
  | Raise e => Raise e
  end.

Notation "x <- m ;; k" := (bind m (fun x => k))
  (at level 61, m at next level, right associativity).

(** ** Python strings *)

Module Str.

(** A [str] is the list of its code points. *)
Definition str := list N.

(** A literal of the source, for the ASCII ones. *)
Definition lit (s : string) : str := map N_of_ascii (list_ascii_of_string s).

Fixpoint eqb (a b : str) : bool :=
  match a, b with
  | [], [] => true
  | x :: a', y :: b' => N.eqb x y && eqb a' b'
  | _, _ => false
  end.

(** [str.isspace] on one character: the code points Python treats as
    whitespace in [split], [strip] and [rstrip]. *)
Definition whitespace : list N :=
  [9; 10; 11; 12; 13; 28; 29; 30; 31; 32; 133; 160; 5760;
   8192; 8193; 8194; 8195; 8196; 8197; 8198; 8199; 8200; 8201; 8202;
   8232; 8233; 8239; 8287; 12288]%N.

Definition isspace (c : N) : bool := existsb (N.eqb c) whitespace.

Fixpoint lstrip (s : str) : str :=
  match s with
  | c :: s' => if isspace c then lstrip s' else s
  | [] => []
  end.

Definition rstrip (s : str) : str := rev (lstrip (rev s)).

Definition strip (s : str) : str := rstrip (lstrip s).

(** [s.split()]: the maximal runs of non-whitespace characters.
    [cur] is the token being read, reversed. *)
Fixpoint split_aux (cur : str) (s : str) : list str :=
  match s with
  | [] => match cur with [] => [] | _ => [rev cur] end
  | c :: s' =>
      if isspace c
      then match cur with
           | [] => split_aux [] s'
           | _ => rev cur :: split_aux [] s'
           end
      else split_aux (c :: cur) s'
  end.

Definition split (s : str) : list str := split_aux [] s.

(** [sep.join(parts)] *)
Fixpoint join (sep : str) (parts : list str) : str :=
  match parts with
  | [] => []
  | [p] => p
  | p :: ps => p ++ sep ++ join sep ps
  end.

Fixpoint startswith (s p : str) : bool :=
  match p, s with
  | [], _ => true
  | x :: p', y :: s' => N.eqb x y && startswith s' p'
  | _ :: _, [] => false
  end.

Definition endswith (s p : str) : bool := startswith (rev s) (rev p).

(** [sub in s] *)
Fixpoint contains (sub s : str) : bool :=
  startswith s sub ||
  match s with
  | [] => false
  | _ :: s' => contains sub s'
  end.

(** [s.count(c)] for a one-character [c]. *)
Definition count (c : N) (s : str) : nat := length (filter (N.eqb c) s).

(** [c in s] for a one-character [c]. *)
Definition has (c : N) (s : str) : bool := existsb (N.eqb c) s.

End Str.

Abbreviation str := Str.str.
Abbreviation lit := Str.lit.

(** ** The regular expressions of [re], as far as [NUM_PAT] uses them *)

Module Re.

Inductive regex : Type :=
| Bol                          (* ^ *)
| Chr (c : N)                  (* a literal character *)
| Set_ (p : N -> bool)         (* a character set [...] *)
| Cat (r1 r2 : regex)          (* r1 r2 *)
| Alt (r1 r2 : regex)          (* r1|r2, the left branch first *)
| Star (r : regex)             (* r*, greedy *)
| Num (r : regex).             (* (?P<num>r) *)

(** r+ *)
Definition Plus (r : regex) : regex := Cat r (Star r).

(** A match object: where the match ends and what the group [num] holds. *)
Record rmatch : Type := { m_end : nat; m_num : option str }.

(** The matcher backtracks as [re] does: a continuation receives the
    position reached, the input left and the group captured so far, and a
    [None] from it makes the matcher try its next alternative. *)
Definition cont : Type := nat -> str -> option str -> option rmatch.

(** The iterations of a greedy star: one more iteration first, the exit
    second.  An iteration has to consume input. *)
Fixpoint star (step : nat -> str -> option str -> cont -> option rmatch)
         (fuel : nat) (pos : nat) (s : str) (cap : option str) (k : cont)
  : option rmatch :=
  match fuel with
  | O => k pos s cap
  | S fuel' =>
      match step pos s cap
              (fun pos' s' cap' =>
                 if Nat.ltb (length s') (length s)
                 then star step fuel' pos' s' cap' k
                 else None) with
      | Some m => Some m
      | None => k pos s cap
      end
  end.

Fixpoint run (r : regex) (pos : nat) (s : str) (cap : option str) (k : cont)
  : option rmatch :=
  match r with
  | Bol => if Nat.eqb pos 0 then k pos s cap else None
  | Chr c =>
      match s with
      | x :: s' => if N.eqb x c then k (S pos) s' cap else None
      | [] => None
      end
  | Set_ p =>
      match s with
      | x :: s' => if p x then k (S pos) s' cap else None
      | [] => None
      end
  | Cat r1 r2 => run r1 pos s cap (fun pos1 s1 cap1 => run r2 pos1 s1 cap1 k)
  | Alt r1 r2 =>
      match run r1 pos s cap k with
      | Some m => Some m
      | None => run r2 pos s cap k
      end
  | Star r1 => star (run r1) (length s) pos s cap k
  | Num r1 =>
      run r1 pos s cap
          (fun pos1 s1 _ => k pos1 s1 (Some (firstn (pos1 - pos) s)))
  end.

(** [pattern.match(text)]: a match that starts at the first character. *)
Definition match_ (r : regex) (text : str) : option rmatch :=
  run r 0 text None (fun pos _ cap => Some {| m_end := pos; m_num := cap |}).

(** The words of a regular expression (groups and anchors apart). *)
Inductive lang : regex -> str -> Prop :=
| lang_bol : lang Bol []
| lang_chr c : lang (Chr c) [c]
| lang_set (p : N -> bool) c : p c = true -> lang (Set_ p) [c]
| lang_cat r1 r2 w1 w2 : lang r1 w1 -> lang r2 w2 -> lang (Cat r1 r2) (w1 ++ w2)
| lang_alt_l r1 r2 w : lang r1 w -> lang (Alt r1 r2) w
| lang_alt_r r1 r2 w : lang r2 w -> lang (Alt r1 r2) w
| lang_star_nil r : lang (Star r) []
| lang_star_cons r w1 w2 : lang r w1 -> lang (Star r) w2 -> lang (Star r) (w1 ++ w2)
| lang_num r w : lang r w -> lang (Num r) w.

(** What a sound matching step is: a success of [step] is a success of
    the continuation after a word of [r]. *)
Definition sound (r : regex)
           (step : nat -> str -> option str -> cont -> option rmatch) : Prop :=
  forall pos s cap k m,
    step pos s cap k = Some m ->
    exists w s' cap',
      s = w ++ s' /\ lang r w /\ k (pos + length w) s' cap' = Some m.

End Re.

(** ** Python numbers *)

Module Py.

Local Open Scope float_scope.

(** [bool(x)] of a float: every float but the two zeros is true. *)
Definition truthy (x : float) : bool := negb (x =? 0).

Definition gtb (x y : float) : bool := y <? x.
Definition geb (x y : float) : bool := y <=? x.

(** [float(z)] of an integer, where it does not overflow. *)
Definition of_Z (z : Z) : float := SF2Prim (binary_normalize prec emax z 0 false).
Definition of_nat (n : nat) : float := of_Z (Z.of_nat n).

(** [a / b] of two integers, [0 < b]: the quotient rounded once, to the
    nearest float; an [OverflowError] when it is too large for a float. *)
Definition int_truediv (a b : Z) : result float :=
  match a with
  | Z0 => Ok 0
  | _ =>
      let '(q, e, l) := SFdiv_core_binary prec emax (Z.abs a) 0 b 0 in
      match binary_round_aux prec emax (Z.ltb a 0) q e l with
      | S754_infinity _ => Raise OverflowError
      | r => Ok (SF2Prim r)
      end
  end.

(** [round(x)]: the nearest integer, a tie to the even one; a [ValueError]
    on a nan and an [OverflowError] on an infinity. *)
Definition round (x : float) : result Z :=
  match Prim2SF x with
  | S754_zero _ => Ok 0%Z
  | S754_finite s m e =>
      let r :=
        match e with
        | Zneg k =>
            let d := Z.pow_pos 2 k in
            let q := Z.div (Zpos m) d in
            let r2 := (2 * Z.modulo (Zpos m) d)%Z in
            match Z.compare r2 d with
            | Lt => q
            | Gt => (q + 1)%Z
            | Eq => if Z.even q then q else (q + 1)%Z
            end
        | _ => Z.shiftl (Zpos m) e
        end in
      Ok (if s then Z.opp r else r)
  | S754_infinity _ => Raise OverflowError
  | S754_nan => Raise ValueError
  end.

(** [min(a, b)] and [max(a, b)]: the first argument unless the second is
    strictly smaller (larger). *)
Definition min2 (a b : float) : float := if b <? a then b else a.
Definition max2 (a b : float) : float := if a <? b then b else a.

(** [min(it)] and [max(it)] over an iterable: a [ValueError] on an empty
    one. *)
Definition min (l : list float) : result float :=
  match l with
  | [] => Raise ValueError
  | x :: l' => Ok (fold_left min2 l' x)
  end.
Definition max (l : list float) : result float :=
  match l with
  | [] => Raise ValueError
  | x :: l' => Ok (fold_left max2 l' x)
  end.

(** [max(it, key=f)]: the first element whose key is the largest. *)
Definition max_by {A : Type} (key : A -> float) (l : list A) : result A :=
  match l with
  | [] => Raise ValueError
  | x :: l' =>
      Ok (fold_left (fun m y => if key m <? key y then y else m) l' x)
  end.

(** [l[i]] *)
Definition index {A : Type} (l : list A) (i : nat) : result A :=
  match nth_error l i with
  | Some a => Ok a
  | None => Raise IndexError
  end.

(** [max(it, default=d)] *)
Definition max_or (d : float) (l : list float) : float :=
  match l with
  | [] => d
  | x :: l' => fold_left max2 l' x
  end.

(** The integers: [min(a, b)], and [str(n)]. *)
Definition zmin (a b : Z) : Z := if Z.ltb b a then b else a.

Definition str_of_Z (n : Z) : Str.str :=
  Str.lit (NilEmpty.string_of_int (Z.to_int n)).

(** [sum(l)], from the integer 0, left to right. *)
Definition sum (l : list float) : float := fold_left add l 0.

(** [sorted(l)] by a strict order [lt]: a stable sort (insertion keeps
    an element in front of the later ones that are not smaller). *)
Section Sorted.
Variable A : Type.
Variable lt : A -> A -> bool.

Fixpoint insert (x : A) (l : list A) : list A :=
  match l with
  | [] => [x]
  | y :: l' => if lt y x then y :: insert x l' else x :: l
  end.

Definition sorted (l : list A) : list A := fold_right insert [] l.
End Sorted.

(** [[x for x in l if p(x)]] where the test may raise. *)
Fixpoint filterM {A : Type} (p : A -> result bool) (l : list A)
  : result (list A) :=
  match l with
  | [] => Ok []
  | a :: l' =>
      b <- p a ;;
      r <- filterM p l' ;;
      Ok (if b then a :: r else r)
  end.

End Py.

(** ** The functions of Python's [statistics] that the program calls

    As in CPython 3.11: [mean] and [stdev] sum exact fractions and round
    once at the end; [median] sorts. *)

Module statistics.

Local Open Scope float_scope.

(** [float.as_integer_ratio]: the exact value of a finite float. *)
Definition exact_ratio (x : float) : option Q :=
  match Prim2SF x with
  | S754_zero _ => Some (0 # 1)%Q
  | S754_finite s m e =>
      let n := if s then Zneg m else Zpos m in
      Some match e with
           | Zneg k => (n # Pos.pow 2 k)%Q
           | _ => (Z.shiftl n e # 1)%Q
           end
  | S754_infinity _ | S754_nan => None
  end.

Fixpoint exact_ratios (data : list float) : option (list Q) :=
  match data with
  | [] => Some []
  | x :: data' =>
      match exact_ratio x, exact_ratios data' with
      | Some q, Some qs => Some (q :: qs)
      | _, _ => None
      end
  end.

Definition Qsum (qs : list Q) : Q := fold_right Qplus (0 # 1)%Q qs.

Definition bit_length (n : Z) : Z :=
  match n with
  | Z0 => 0%Z
  | _ => (Z.log2 (Z.abs n) + 1)%Z
  end.

Definition sqrt_bit_width : Z := 109%Z.     (* 2 * 53 + 3 *)

(** [_integer_sqrt_of_frac_rto]: the square root of n/m rounded to odd. *)
Definition integer_sqrt_of_frac_rto (n m : Z) : Z :=
  let a := Z.sqrt (Z.div n m) in
  Z.lor a (if Z.eqb (a * a * m) n then 0 else 1)%Z.

(** [_float_sqrt_of_frac]: the square root of n/m, correctly rounded. *)
Definition float_sqrt_of_frac (n m : Z) : result float :=
  let q := Z.div (bit_length n - bit_length m - sqrt_bit_width) 2 in
  if Z.leb 0 q
  then Py.int_truediv
         (Z.shiftl (integer_sqrt_of_frac_rto n (Z.shiftl m (2 * q))) q) 1
  else Py.int_truediv
         (integer_sqrt_of_frac_rto (Z.shiftl n (- 2 * q)) m)
         (Z.shiftl 1 (- q)).

(** [statistics.median]; a [StatisticsError] on no data. *)
Definition median (data : list float) : result float :=
  let data := Py.sorted ltb data in
  let n := length data in
  match n with
  | O => Raise StatisticsError
  | _ =>
      if Nat.eqb (Nat.modulo n 2) 1
      then Py.index data (Nat.div n 2)
      else let i := Nat.div n 2 in
           a <- Py.index data (i - 1) ;;
           b <- Py.index data i ;;
           Ok ((a + b) / 2)
  end.

(** [statistics.mean]; a [StatisticsError] on no data.  Data with a nan
    or an infinity gives the float sum of those, divided by the count. *)
Definition mean (data : list float) : result float :=
  match data with
  | [] => Raise StatisticsError
  | _ =>
      let n := length data in
      match exact_ratios data with
      | Some qs =>
          let total := Qred (Qsum qs) in
          Py.int_truediv (Qnum total) (Z.pos (Qden total) * Z.of_nat n)
      | None =>
          let total := Py.sum (filter (fun x => negb (is_finite x)) data) in
          Ok (total / Py.of_nat n)
      end
  end.

(** [statistics.stdev], the sample standard deviation; a
    [StatisticsError] on fewer than two data points, an [AttributeError]
    on data with a nan or an infinity. *)
Definition stdev (data : list float) : result float :=
  let n := length data in
  if Nat.ltb n 2 then Raise StatisticsError
  else
    match exact_ratios data with
    | None => Raise AttributeError
    | Some qs =>
    let count := inject_Z (Z.of_nat n) in
    let sx := Qsum qs in
    let sxx := Qsum (map (fun q => Qmult q q) qs) in
    let ssd := Qdiv (Qminus (Qmult count sxx) (Qmult sx sx)) count in
    let mss := Qred (Qdiv ssd (inject_Z (Z.of_nat n - 1))) in
    float_sqrt_of_frac (Qnum mss) (Z.pos (Qden mss))
    end.

(** Permuted data has permuted exact values, or an infinity or a nan on
    both sides. *)
Definition same_ratios (a b : option (list Q)) : Prop :=
  match a, b with
  | Some qs, Some qs' => Permutation qs qs'
  | None, None => True
  | _, _ => False
  end.

End statistics.

(** ** processor.py *)

Definition in_range (lo hi c : N) : bool := N.leb lo c && N.leb c hi.

Definition digit (c : N) : bool := in_range 48 57 c.             (* [0-9] *)
Definition roman (c : N) : bool := Str.has c (lit "IVXLCDM").    (* [IVXLCDM] *)
Definition kanji_numerals : str :=
  [19968; 20108; 19977; 22235; 20116; 20845; 19971; 20843; 20061;
   21313; 30334; 21315]%N.
Definition kanji (c : N) : bool := Str.has c kanji_numerals.
Definition dot : N := 46%N.
Definition backslash : N := 92%N.
Definition letter_b : N := 98%N.
Definition kanji_di : N := 31532%N.       (* U+7B2C *)
Definition kanji_zhang : N := 31456%N.    (* U+7AE0 *)

(** The three numerals of the pattern. *)
Definition decimal_numeral : Re.regex :=
  Re.Cat (Re.Plus (Re.Set_ digit))
         (Re.Star (Re.Cat (Re.Chr dot) (Re.Plus (Re.Set_ digit)))).
Definition roman_numeral : Re.regex := Re.Plus (Re.Set_ roman).
Definition chapter_marker : Re.regex :=
  Re.Cat (Re.Chr kanji_di) (Re.Cat (Re.Plus (Re.Set_ kanji)) (Re.Chr kanji_zhang)).
Definition numeral : Re.regex :=
  Re.Alt decimal_numeral (Re.Alt roman_numeral chapter_marker).

(** [NUM_PAT]: the source is a raw string that ends in two backslashes and a
    [b], which [re] reads as an escaped backslash followed by the letter b. *)
Definition NUM_PAT : Re.regex :=
  Re.Cat Re.Bol
    (Re.Cat (Re.Num numeral) (Re.Cat (Re.Chr backslash) (Re.Chr letter_b))).

Definition HEADER_TOL_Y : float := 10%float.

(** A word of [page.extract_words(extra_attrs=["fontname", "size"])]. *)
Module Word.
Record t : Type := {
  text : str;
  x0 : float;
  x1 : float;
  top : float;
  bottom : float;
  fontname : option str;      (* w.get('fontname', '') *)
  size : option float         (* w.get('size', 0) *)
}.
End Word.

(** The dictionary [extract_lines] builds for a line (structures.py). *)
Module Line.
Record t : Type := {
  page : Z;
  text : str;
  font_names : list str;
  font_sizes : list float;
  x0 : float;
  x1 : float;
  top : float;
  bottom : float;
  is_boldish : bool;
  is_all_caps : bool;
  avg_font_size : float;
  leading : float;
  indent : float
}.
End Line.

(** A line after [score_lines] has set its ["score"]. *)
Module Scored.
Record t : Type := {
  line : Line.t;
  score : float
}.
End Scored.

Coercion Scored.line : Scored.t >-> Line.t.

(** An entry of the outline. *)
Module Entry.
Record t : Type := {
  level : str;
  text : str;
  page : Z
}.

Definition set_level (o : t) (lv : str) : t :=
  {| level := lv; text := text o; page := page o |}.
End Entry.

(** The value of the key [Title] in the metadata that [pdfplumber] hands
    over: a string, or another object as the file has it (a number, a
    list, a dictionary, [None]), of which the code uses the truth value and
    asks the method [strip], which it has not. *)
Inductive meta_value : Type :=
  | MetaStr (s : str)
  | MetaObj (truthy : bool).

(** What [process_pdf] returns. *)
Record outline_result : Type := {
  title : option str;
  outline : list Entry.t
}.

Local Open Scope float_scope.

Section Processor.

(** [str.lower] and [str.isupper] follow the Unicode character database,
    which is no part of the program: they are parameters here. *)
Variable lower : str -> str.
Variable isupper : str -> bool.

(** *** extract_lines *)

Definition y_tol : float := 2.5.

(** The key of the sort, [(w['top'], w['x0'])], compared as tuples are. *)
Definition word_lt (a b : Word.t) : bool :=
  if Word.top a =? Word.top b
  then Word.x0 a <? Word.x0 b
  else Word.top a <? Word.top b.

(** The state of the grouping loop. *)
Record grouping : Type := {
  lines : list (list Word.t);
  current_line : list Word.t;
  last_y : option float
}.

Definition group_step (st : grouping) (w : Word.t) : grouping :=
  match last_y st with
  | None =>
      {| lines := lines st;
         current_line := current_line st ++ [w];
         last_y := Some (Word.top w) |}
  | Some y =>
      if abs (Word.top w - y) <=? y_tol
      then {| lines := lines st;
              current_line := current_line st ++ [w];
              last_y := Some ((y + Word.top w) / 2) |}
      else {| lines := lines st ++ [current_line st];
              current_line := [w];
              last_y := Some (Word.top w) |}
  end.

Definition group_words (words : list Word.t) : list (list Word.t) :=
  let st := fold_left group_step (Py.sorted word_lt words)
              {| lines := []; current_line := []; last_y := None |} in
  match current_line st with
  | [] => lines st
  | _ => lines st ++ [current_line st]
  end.

Definition fontname_of (w : Word.t) : str :=
  match Word.fontname w with Some fn => fn | None => [] end.

Definition size_of (w : Word.t) : float :=
  match Word.size w with Some sz => sz | None => 0 end.

Definition boldish (fn : str) : bool :=
  Str.contains (lit "Bold") fn || Str.contains (lit "bold") fn
  || Str.contains (lit "Black") fn.

(** The features of one line; [words] are the words of its page and
    [prev_bottom] is the bottom of the line before, if any. *)
Definition line_dict (page_num : Z) (words : list Word.t)
           (prev_bottom : option float) (line : list Word.t)
  : result Line.t :=
  let text := Str.strip (Str.join (lit " ") (map Word.text line)) in
  let font_names := map fontname_of line in
  let font_sizes := map size_of line in
  x0 <- Py.min (map Word.x0 line) ;;
  x1 <- Py.max (map Word.x1 line) ;;
  top <- Py.min (map Word.top line) ;;
  bottom <- Py.max (map Word.bottom line) ;;
  let is_boldish := existsb boldish font_names in
  let is_all_caps := isupper text && Nat.ltb 2 (length text) in
  let avg_font_size :=
    match font_sizes with
    | [] => 0
    | _ => Py.sum font_sizes / Py.of_nat (length font_sizes)
    end in
  let leading :=
    match prev_bottom with
    | Some b => top - b
    | None => 0
    end in
  page_x0 <- Py.min (map Word.x0 words) ;;
  let indent := x0 - page_x0 in
  Ok {| Line.page := page_num;
        Line.text := text;
        Line.font_names := font_names;
        Line.font_sizes := font_sizes;
        Line.x0 := x0;
        Line.x1 := x1;
        Line.top := top;
        Line.bottom := bottom;
        Line.is_boldish := is_boldish;
        Line.is_all_caps := is_all_caps;
        Line.avg_font_size := avg_font_size;
        Line.leading := leading;
        Line.indent := indent |}.

(** The loop over the lines; [prev_bottom] is its running variable. *)
Fixpoint line_dicts (page_num : Z) (words : list Word.t)
         (prev_bottom : option float) (lines : list (list Word.t))
  : result (list Line.t) :=
  match lines with
  | [] => Ok []
  | line :: rest =>
      d <- line_dict page_num words prev_bottom line ;;
      ds <- line_dicts page_num words (Some (Line.bottom d)) rest ;;
      Ok (d :: ds)
  end.

Definition extract_lines (words : list Word.t) (page_num : Z)
  : result (list Line.t) :=
  match words with
  | [] => Ok []
  | _ => line_dicts page_num words None (group_words words)
  end.

(** *** drop_repeating_headers, merge_wrapped_heading_lines *)

Definition drop_repeating_headers (lines : list Line.t) : list Line.t := lines.

Definition merge_wrapped_heading_lines (lines : list Line.t) : list Line.t :=
  lines.

(** *** score_lines *)

Definition page_height_hint (l : Line.t) : float :=
  Py.max2 (Line.bottom l + 50) 792.

(** The body of the scoring loop, for the line [l]. *)
Definition line_score (median_size stdev_size median_leading : float)
           (l : Line.t) : float :=
  let score := 0 in
  let size_z :=
    if Py.truthy stdev_size
    then (Line.avg_font_size l - median_size) / stdev_size
    else 0 in
  let score := score + size_z * 2 in
  let score := if Line.is_boldish l then score + 1 else score in
  let len_tokens := length (Str.split (Line.text l)) in
  let score :=
    if Nat.ltb 5 len_tokens && Nat.ltb len_tokens 25 then score + 1
    else if Nat.leb len_tokens 5 then score - 0.25
    else score in
  let score :=
    match Re.match_ NUM_PAT (Line.text l) with
    | Some _ => score + 1.5
    | None => score
    end in
  let gap_above_ratio :=
    if Py.truthy median_leading && Py.truthy (Line.leading l)
    then Line.leading l / median_leading
    else 1 in
  let score := if Py.gtb gap_above_ratio 1.5 then score + 0.75 else score in
  let score :=
    if Str.endswith (Str.rstrip (Line.text l)) (lit ":")
    then score + 0.25 else score in
  let score := if Line.is_all_caps l then score + 0.5 else score in
  let score := if abs (Line.indent l) <? 5 then score + 0.5 else score in
  let score :=
    if Z.eqb (Line.page l) 1 && (Line.top l <? page_height_hint l * 0.25)
    then score + 1 else score in
  score.

Definition positive (x : float) : bool := Py.gtb x 0.

Definition score_lines (lines : list Line.t) : result (list Scored.t) :=
  match lines with
  | [] => Ok []
  | _ =>
      let font_sizes := filter positive (map Line.avg_font_size lines) in
      let font_sizes :=
        match font_sizes with
        | [] => [10]
        | _ => font_sizes
        end in
      median_size <- statistics.median font_sizes ;;
      stdev_size <- (if Nat.ltb 1 (length font_sizes)
                     then statistics.stdev font_sizes
                     else Ok 1) ;;
      let leadings := filter positive (map Line.leading lines) in
      median_leading <- (match leadings with
                         | [] => Ok 0
                         | _ => statistics.median leadings
                         end) ;;
      min_x0 <- Py.min (map Line.x0 lines) ;;
      Ok (map (fun l =>
                 {| Scored.line := l;
                    Scored.score :=
                      line_score median_size stdev_size median_leading l |})
              lines)
  end.

(** *** scored_threshold *)

Definition scored_threshold (scored : list Scored.t) : result float :=
  let scores := map Scored.score scored in
  match scores with
  | [] => Ok 0
  | _ =>
      mean <- statistics.mean scores ;;
      stdev <- (if Nat.ltb 1 (length scores)
                then statistics.stdev scores
                else Ok 0) ;;
      Ok (mean + stdev)
  end.

(** The candidates of [process_pdf]: the comprehension calls
    [scored_threshold] for every line it tests. *)
Definition candidates (scored : list Scored.t) : result (list Scored.t) :=
  Py.filterM
    (fun l => t <- scored_threshold scored ;; Ok (Py.geb (Scored.score l) t))
    scored.

(** *** detect_title *)

(** [" ".join(s.split())] *)
Definition collapse (s : str) : str := Str.join (lit " ") (Str.split s).

Definition on_page1 (l : Scored.t) : bool := Z.eqb (Line.page l) 1.

(** [meta_title.strip() if meta_title else ""], after the [try]: a true
    object that is no string has no [strip]. *)
Definition stripped_title (metadata_title : option meta_value)
  : result str :=
  match metadata_title with
  | Some (MetaStr (c :: t)) => Ok (Str.strip (c :: t))
  | Some (MetaObj true) => Raise AttributeError
  | _ => Ok []
  end.

(** 1. The title of the metadata.  [metadata_title] is what reading
    [(pdf.metadata or {}).get("Title", "")] gave, [None] when there is no
    title or the read raised. *)
Definition title_from_metadata (metadata_title : option meta_value)
           (scored : list Scored.t) : result (option str) :=
  meta_title <- stripped_title metadata_title ;;
  match meta_title with
  | [] => Ok None
  | _ =>
      if existsb
           (fun l : Scored.t =>
              Str.contains (lower meta_title) (lower (Line.text l)))
           (firstn 20 scored)
      then Ok (Some (collapse meta_title))
      else Ok None
  end.

(** 2. The highest-scoring heading on page 1. *)
Definition title_from_page1_best (cands : list Scored.t)
  : result (option str) :=
  let page1 := filter on_page1 cands in
  match page1 with
  | [] => Ok None
  | _ =>
      best <- Py.max_by Scored.score page1 ;;
      if Py.gtb (Scored.score best) 0
      then Ok (Some (collapse (Line.text best)))
      else Ok None
  end.

(** 3. The first large centered line on page 1: the loop over
    [page1_lines], at the lines [ls] still to visit.  The float of the
    source's [0.15] is [0x1.3333333333333p-3]. *)
Fixpoint first_centered (page1_lines : list Scored.t) (page_width : float)
         (ls : list Scored.t) : result (option str) :=
  match ls with
  | [] => Ok None
  | l :: rest =>
      let center := abs ((Line.x0 l + Line.x1 l) / 2 - page_width / 2) in
      med <- statistics.median
               (map (fun x : Scored.t => Line.avg_font_size x) page1_lines) ;;
      if Py.gtb (Line.avg_font_size l) med && (center <? page_width * 0x1.3333333333333p-3)
      then Ok (Some (collapse (Line.text l)))
      else first_centered page1_lines page_width rest
  end.

Definition title_from_centered (scored : list Scored.t)
  : result (option str) :=
  let page1_lines := filter on_page1 scored in
  match page1_lines with
  | [] => Ok None
  | _ =>
      let page_width :=
        Py.max_or 600 (map (fun l : Scored.t => Line.x1 l) page1_lines) in
      first_centered page1_lines page_width page1_lines
  end.

(** 4. The first candidate. *)
Definition title_from_first_cand (cands : list Scored.t) : option str :=
  match cands with
  | [] => None
  | c :: _ => Some (collapse (Line.text c))
  end.

(** Paths 3 and 4, and the [None] after them. *)
Definition title_fallbacks (scored cands : list Scored.t)
  : result (option str) :=
  t3 <- title_from_centered scored ;;
  match t3 with
  | Some t => Ok (Some t)
  | None => Ok (title_from_first_cand cands)
  end.

Definition detect_title (metadata_title : option meta_value)
           (scored cands : list Scored.t) : result (option str) :=
  t1 <- title_from_metadata metadata_title scored ;;
  match t1 with
  | Some t => Ok (Some t)
  | None =>
      t2 <- title_from_page1_best cands ;;
      match t2 with
      | Some t => Ok (Some t)
      | None => title_fallbacks scored cands
      end
  end.

(** *** assign_levels *)

Fixpoint dedup (l : list float) : list float :=       (* set(...) *)
  match l with
  | [] => []
  | x :: l' => x :: filter (fun y => negb (y =? x)) (dedup l')
  end.

Definition thresholds_of (sizes : list float) : result (list float) :=
  let n := length sizes in
  if Nat.leb 3 n
  then a <- Py.index sizes (n - 1) ;;
       b <- Py.index sizes (n - 2) ;;
       c <- Py.index sizes (n - 3) ;;
       Ok [a; b; c]
  else s0 <- Py.index sizes 0 ;;
       Ok (rev sizes ++ repeat s0 (3 - n)).

Definition font_level (thresholds : list float) (size : float) : result Z :=
  t0 <- Py.index thresholds 0 ;;
  if Py.geb size t0 then Ok 1%Z
  else t1 <- Py.index thresholds 1 ;;
       if Py.geb size t1 then Ok 2%Z else Ok 3%Z.

Definition numbering_level (text : str) : result (option Z) :=
  match Re.match_ NUM_PAT text with
  | Some m =>
      match Re.m_num m with
      | Some num =>
          if Str.has dot num
          then Ok (Some (Py.zmin (Z.of_nat (Str.count dot num) + 1) 3))
          else if existsb (fun c => Str.has c num) kanji_numerals
               then Ok (Some 1%Z)
               else Ok (Some 1%Z)
      | None => Raise TypeError
      end
  | None => Ok None
  end.

Definition key : Type := (str * Z * Z)%type.

Definition key_eqb (a b : key) : bool :=
  let '(t1, p1, y1) := a in
  let '(t2, p2, y2) := b in
  Str.eqb t1 t2 && Z.eqb p1 p2 && Z.eqb y1 y2.

(** The level of one candidate, before the repairs. *)
Definition level_of (thresholds : list float) (l : Scored.t) : result Z :=
  f_level <- font_level thresholds (Line.avg_font_size l) ;;
  n_level <- numbering_level (Line.text l) ;;
  let level :=
    match n_level with
    | Some n => if Z.eqb n 0 then f_level else Py.zmin f_level n
    | None => f_level
    end in
  Ok (if Z.ltb 1 level && Py.gtb (Line.indent l) 10
      then Py.zmin (level + 1) 3
      else level).

(** The loop that emits the entries; [outline] and [seen] are its running
    variables. *)
Fixpoint emit (thresholds : list float) (cands : list Scored.t)
         (outline : list Entry.t) (seen : list key) : result (list Entry.t) :=
  match cands with
  | [] => Ok outline
  | l :: rest =>
      level <- level_of thresholds l ;;
      y <- Py.round (Line.top l) ;;
      let k := (Str.strip (Line.text l), Line.page l, y) in
      if existsb (key_eqb k) seen
      then emit thresholds rest outline seen
      else emit thresholds rest
             (outline ++ [{| Entry.level := lit "H" ++ Py.str_of_Z level;
                             Entry.text := Str.strip (Line.text l);
                             Entry.page := Line.page l |}])
             (k :: seen)
  end.

Definition has_level (lv : str) (o : Entry.t) : bool :=
  Str.eqb (Entry.level o) lv.

(** Guarantee at least one H1. *)
Definition guarantee_h1 (outline : list Entry.t) : list Entry.t :=
  if negb (existsb (has_level (lit "H1")) outline)
  then match outline with
       | [] => []
       | o :: rest => Entry.set_level o (lit "H1") :: rest
       end
  else outline.

(** Demote isolated H3s: the entries of [done] have been visited, and
    changed in place where the loop changed them. *)
Fixpoint demote_isolated_h3 (done todo : list Entry.t) : list Entry.t :=
  match todo with
  | [] => done
  | o :: rest =>
      let o' :=
        if has_level (lit "H3") o && negb (existsb (has_level (lit "H2")) done)
        then Entry.set_level o (lit "H2")
        else o in
      demote_isolated_h3 (done ++ [o']) rest
  end.

(** The entries as the loop emits them, before the two repairs. *)
Definition emitted (cands : list Scored.t) : result (list Entry.t) :=
  let sizes :=
    Py.sorted ltb
      (dedup (map (fun l : Scored.t => Line.avg_font_size l) cands)) in
  thresholds <- thresholds_of sizes ;;
  emit thresholds cands [] [].

Definition assign_levels (cands : list Scored.t) : result (list Entry.t) :=
  match cands with
  | [] => Ok []
  | _ =>
      outline <- emitted cands ;;
      Ok (demote_isolated_h3 [] (guarantee_h1 outline))
  end.

(** *** process_pdf *)

(** What [pdfplumber] gives for a file: the words of each page and the
    title of the metadata. *)
Record pdf : Type := {
  pages : list (list Word.t);
  metadata_title : option meta_value
}.

(** The loop over the pages, [p_idx] counting from [start]. *)
Fixpoint pages_lines (start : Z) (pages : list (list Word.t))
  : result (list Line.t) :=
  match pages with
  | [] => Ok []
  | page :: rest =>
      lines <- extract_lines page start ;;
      more <- pages_lines (start + 1) rest ;;
      Ok (lines ++ more)
  end.

Definition process_pdf (doc : pdf) : result outline_result :=
  all_lines <- pages_lines 1 (pages doc) ;;
  let lines := drop_repeating_headers all_lines in
  let lines := merge_wrapped_heading_lines lines in
  scored <- score_lines lines ;;
  cands <- candidates scored ;;
  title <- detect_title (metadata_title doc) scored cands ;;
  outline <- assign_levels cands ;;
  Ok {| title := title; outline := outline |}.

End Processor.

Local Close Scope float_scope.

(** ** main.py *)

(** The body of the loop of [main] for a file that [pdfplumber] opens as
    [doc]: the result of [process_pdf], and the empty result when it
    raises. *)
Definition main_result (lower : str -> str) (isupper : str -> bool)
           (doc : pdf) : outline_result :=
  match process_pdf lower isupper doc with
  | Ok result => result
  | Raise _ => {| title := None; outline := [] |}
  end.

(** ** ASCII instances of the Unicode parameters *)

Definition ascii_lower (s : str) : str :=
  map (fun c => if in_range 65 90 c then (c + 32)%N else c) s.

Definition ascii_isupper (s : str) : bool :=
  existsb (in_range 65 90) s && negb (existsb (in_range 97 122) s).

(** ** Sample documents *)

Definition word (text : string) (x0 x1 top bottom : float) (font : string)
           (size : float) : Word.t :=
  {| Word.text := lit text; Word.x0 := x0; Word.x1 := x1; Word.top := top;
     Word.bottom := bottom; Word.fontname := Some (lit font);
     Word.size := Some size |}.

Definition intro_page : list Word.t :=
  [ word "1." 72 90 50 74 "Helvetica-Bold" 24;
    word "Introduction" 96 300 50 74 "Helvetica-Bold" 24 ].

Definition intro_pdf : pdf := {| pages := [intro_page]; metadata_title := None |}.

(** A page whose only word has no size. *)
Definition unsized_page : list Word.t :=
  [ {| Word.text := lit "Overview"; Word.x0 := 72; Word.x1 := 140;
       Word.top := 300; Word.bottom := 312;
       Word.fontname := Some (lit "Helvetica"); Word.size := None |} ].

Definition unsized_pdf : pdf :=
  {| pages := [unsized_page]; metadata_title := None |}.

(** A page set in capitals. *)
Definition caps_page : list Word.t :=
  [ word "Summary" 72 200 100 112 "ARIAL-BOLD" 12 ].

(** A line given by its features. *)
Definition mk_line (page : Z) (text : string) (size x0 x1 top bottom
                    leading indent : float) (bold : bool) : Line.t :=
  {| Line.page := page; Line.text := lit text;
     Line.font_names := [lit "Helvetica"]; Line.font_sizes := [size];
     Line.x0 := x0; Line.x1 := x1; Line.top := top; Line.bottom := bottom;
     Line.is_boldish := bold; Line.is_all_caps := false;
     Line.avg_font_size := size; Line.leading := leading;
     Line.indent := indent |}.

Definition mk_scored (l : Line.t) (score : float) : Scored.t :=
  {| Scored.line := l; Scored.score := score |}.

(** Three candidates in three sizes, the smallest first. *)
Definition small_first : list Scored.t :=
  [ mk_scored (mk_line 1 "Scope" 10 72 120 100 110 0 0 true) 3;
    mk_scored (mk_line 1 "Methods" 12 72 140 200 212 90 0 true) 4;
    mk_scored (mk_line 2 "Results" 14 72 150 80 94 0 0 true) 5 ].

(** Three pages with the same running header and a line of text each. *)
Definition report_lines : list Line.t :=
  [ mk_line 1 "ACME Report" 9 72 140 20 29 0 0 false;
    mk_line 1 "Introduction" 14 72 170 100 114 71 0 true;
    mk_line 2 "ACME Report" 9 72 140 20 29 0 0 false;
    mk_line 2 "Methods" 14 72 130 100 114 71 0 true;
    mk_line 3 "ACME Report" 9 72 140 22 31 0 0 false;
    mk_line 3 "Results" 14 72 130 100 114 69 0 true ].

(** Two lines of a page, in both orders. *)
Definition two_lines : list Line.t :=
  [ mk_line 1 "Summary" 18 72 200 60 78 0 0 true;
    mk_line 1 "This report covers the results of the third quarter" 11
            90 480 100 111 22 18 false ].

Definition two_lines_swapped : list Line.t :=
  [ mk_line 1 "This report covers the results of the third quarter" 11
            90 480 100 111 22 18 false;
    mk_line 1 "Summary" 18 72 200 60 78 0 0 true ].

(** The line of [intro_page], and the line of [unsized_page] with its
    score. *)
Definition intro_line : Line.t :=
  {| Line.page := 1; Line.text := lit "1. Introduction";
     Line.font_names := [lit "Helvetica-Bold"; lit "Helvetica-Bold"];
     Line.font_sizes := [24; 24]%float;
     Line.x0 := 72; Line.x1 := 300; Line.top := 50; Line.bottom := 74;
     Line.is_boldish := true; Line.is_all_caps := false;
     Line.avg_font_size := 24; Line.leading := 0; Line.indent := 0 |}.

Definition unsized_line : Line.t :=
  {| Line.page := 1; Line.text := lit "Overview";
     Line.font_names := [lit "Helvetica"]; Line.font_sizes := [0]%float;
     Line.x0 := 72; Line.x1 := 140; Line.top := 300; Line.bottom := 312;
     Line.is_boldish := false; Line.is_all_caps := false;
     Line.avg_font_size := 0; Line.leading := 0; Line.indent := 0 |}.

Definition unsized_scored : Scored.t := mk_scored unsized_line (-19.75).

(** Three scored lines with the scores 1, 3 and 5. *)
Definition three_scored : list Scored.t :=
  [ mk_scored (mk_line 1 "Preface" 10 72 130 100 110 0 0 false) 1;
    mk_scored (mk_line 1 "Background" 10 72 150 120 130 10 0 false) 3;
    mk_scored (mk_line 2 "Findings" 14 72 140 80 94 0 0 true) 5 ].

(** A document of two pages without a word. *)
Definition blank_pdf : pdf :=
  {| pages := [[]; []];
     metadata_title := Some (MetaStr (lit "Annual Report")) |}.

(** A document of one page without a word, with the number 42 for its
    title. *)
Definition numbered_blank_pdf : pdf :=
  {| pages := [[]]; metadata_title := Some (MetaObj true) |}.

(** Two pages, each with a heading and three lines of text. *)
Definition chapters_pdf : pdf :=
  {| pages :=
       [ [ word "Scope" 72 160 50 74 "Helvetica-Bold" 24;
           word "alpha" 72 300 100 112 "Helvetica" 12;
           word "beta" 72 300 120 132 "Helvetica" 12;
           word "gamma" 72 300 140 152 "Helvetica" 12 ];
         [ word "Method" 72 170 50 74 "Helvetica-Bold" 24;
           word "delta" 72 300 100 112 "Helvetica" 12;
           word "epsilon" 72 300 120 132 "Helvetica" 12;
           word "zeta" 72 300 140 152 "Helvetica" 12 ] ];
     metadata_title := None |}.

Definition chapters_result : outline_result :=
  {| title := Some (lit "Scope");
     outline :=
       [ {| Entry.level := lit "H1"; Entry.text := lit "Scope";
            Entry.page := 1 |};
         {| Entry.level := lit "H1"; Entry.text := lit "Method";
            Entry.page := 2 |} ] |}.

(** One page with two lines of one size: the scores are 2.25 and 0.25, and
    neither reaches their mean plus their deviation. *)
Definition untitled_pdf : pdf :=
  {| pages :=
       [ [ word "first" 72 300 100 112 "Helvetica-Bold" 12;
           word "second" 72 300 300 312 "Helvetica" 12 ] ];
     metadata_title := None |}.

(** Three candidates in three sizes, the largest first. *)
Definition big_first : list Scored.t :=
  [ mk_scored (mk_line 1 "Results" 14 72 150 80 94 0 0 true) 5;
    mk_scored (mk_line 1 "Methods" 12 72 140 200 212 90 0 true) 4;
    mk_scored (mk_line 2 "Scope" 10 72 120 100 110 0 0 true) 3 ].

(** Candidates of one size, the first of them twice. *)
Definition repeated_cands : list Scored.t :=
  [ mk_scored (mk_line 1 "Contents" 12 72 150 80 92 0 0 true) 4;
    mk_scored (mk_line 1 "Contents" 12 72 150 80.25 92 0 0 true) 4;
    mk_scored (mk_line 2 "Contents" 12 72 150 80 92 0 0 true) 4 ].

(** Two lines of one size. *)
Definition one_size_lines : list Line.t :=
  [ mk_line 1 "Summary" 12 72 200 60 72 0 0 true;
    mk_line 1 "The third quarter" 12 72 300 80 92 8 0 false ].

(** ** The header/footer contract of the specification *)

(** What section 4.2 of the specification asks of the header/footer
    filter, stated on its own: [l] belongs to a group of lines with the
    same text, within [HEADER_TOL_Y] of its vertical position, that
    appears on more than half of the pages. *)
Definition spec_same_group (l l' : Line.t) : bool :=
  Str.eqb (Str.strip (Line.text l)) (Str.strip (Line.text l'))
  && (abs (Line.top l - Line.top l') <=? HEADER_TOL_Y)%float.

Definition pages_of (lines : list Line.t) : list Z :=
  nodup Z.eq_dec (map Line.page lines).

Definition spec_repeats (lines : list Line.t) (l : Line.t) : bool :=
  Nat.ltb (length (pages_of lines))
          (2 * length (pages_of (filter (spec_same_group l) lines))).

(** ** Predicates on outlines *)

(** A level is one of the three. *)
Definition level_str_ok (lv : str) : Prop :=
  lv = lit "H1" \/ lv = lit "H2" \/ lv = lit "H3".

Definition level_ok (o : Entry.t) : Prop := level_str_ok (Entry.level o).

Definition is_H1 (o : Entry.t) : Prop := Entry.level o = lit "H1".

(** What the repair loop may do to an entry: nothing, or H3 to H2. *)
Definition repaired (o o' : Entry.t) : Prop :=
  o' = o \/ (Entry.level o = lit "H3" /\ o' = Entry.set_level o (lit "H2")).

(** What the H1 guarantee may do to an entry: nothing, or set it to H1. *)
Definition promoted (o o' : Entry.t) : Prop :=
  o' = o \/ o' = Entry.set_level o (lit "H1").

(** ** Predicates on strings and lists *)

(** A token of [split]: not empty and without whitespace. *)
Definition token (t : str) : Prop :=
  t <> [] /\ Forall (fun c => Str.isspace c = false) t.

(** [l1] is [l2] with some elements left out, the order kept. *)
Inductive subseq (A : Type) : list A -> list A -> Prop :=
| subseq_nil : subseq [] []
| subseq_skip x l1 l2 : subseq l1 l2 -> subseq l1 (x :: l2)
| subseq_keep x l1 l2 : subseq l1 l2 -> subseq (x :: l1) (x :: l2).

(** The entries before position [i] of an outline hold an H2 whenever the
    entry at [i] is an H3. *)
Definition h3_after_h2 (outline : list Entry.t) : Prop :=
  forall i o,
    nth_error outline i = Some o ->
    Entry.level o = lit "H3" ->
    Exists (fun e => Entry.level e = lit "H2") (firstn i outline).

(** ** Candidates and their entries *)

(** The key of a candidate in the duplicate removal of [assign_levels]. *)
Definition key_of (c : Scored.t) : result key :=
  y <- Py.round (Line.top c) ;;
  Ok (Str.strip (Line.text c), Line.page c, y).

(** The entry [o] is the one the loop of [assign_levels] emits for the
    candidate [c] under the thresholds [th]. *)
Definition from_cand (th : list float) (c : Scored.t) (o : Entry.t) : Prop :=
  exists lv,
    level_of th c = Ok lv
    /\ Entry.level o = lit "H" ++ Py.str_of_Z lv
    /\ Entry.text o = Str.strip (Line.text c)
    /\ Entry.page o = Line.page c.

(** Two entries with the same text and page. *)
Definition same_heading (o o' : Entry.t) : Prop :=
  Entry.text o' = Entry.text o /\ Entry.page o' = Entry.page o.

(** ** Predicates on regular expressions *)

(** An expression without [^]. *)
Fixpoint anchor_free (r : Re.regex) : Prop :=
  match r with
  | Re.Bol => False
  | Re.Chr _ | Re.Set_ _ => True
  | Re.Cat r1 r2 | Re.Alt r1 r2 => anchor_free r1 /\ anchor_free r2
  | Re.Star r1 | Re.Num r1 => anchor_free r1
  end.

(** An expression that reads only characters with the property [P]. *)
Fixpoint reads_only (P : N -> Prop) (r : Re.regex) : Prop :=
  match r with
  | Re.Bol => True
  | Re.Chr c => P c
  | Re.Set_ p => forall c, p c = true -> P c
  | Re.Cat r1 r2 | Re.Alt r1 r2 => reads_only P r1 /\ reads_only P r2
  | Re.Star r1 | Re.Num r1 => reads_only P r1
  end.

(** A continuation that succeeds on the input [s], wherever it is called. *)
Definition accepts (k : Re.cont) (s : str) : Prop :=
  forall pos cap, k pos s cap <> None.

(** * Properties *)

(** ** The matcher only finds words of the expression *)

Module ReFacts.
Import Re.

Lemma star_sound r step :
  sound r step ->
  forall fuel, sound (Star r) (star step fuel).
Proof.
  intros Hstep fuel.
  induction fuel as [|fuel IH]; intros pos s cap k m H; simpl in H.
  - exists [], s, cap. rewrite Nat.add_0_r. repeat split; auto using lang.
  - destruct (step pos s cap _) as [m'|] eqn:E.
    + inversion H; subst m'; clear H.
      apply Hstep in E. destruct E as (w1 & s1 & cap1 & -> & L1 & K).
      destruct (Nat.ltb _ _); [|discriminate].
      apply IH in K. destruct K as (w2 & s2 & cap2 & -> & L2 & K).
      exists (w1 ++ w2), s2, cap2.
      rewrite length_app, Nat.add_assoc, <- app_assoc.
      repeat split; auto using lang.
    + exists [], s, cap. rewrite Nat.add_0_r. repeat split; auto using lang.
Qed.

Lemma run_sound r : sound r (run r).
Proof.
  induction r as [|c|p|r1 IH1 r2 IH2|r1 IH1 r2 IH2|r1 IH1|r1 IH1];
    intros pos s cap k m H; simpl in H.
  - destruct (Nat.eqb pos 0); [|discriminate].
    exists [], s, cap. rewrite Nat.add_0_r. repeat split; auto using lang.
  - destruct s as [|x s']; [discriminate|].
    destruct (N.eqb x c) eqn:E; [|discriminate].
    apply N.eqb_eq in E; subst x.
    exists [c], s', cap. simpl. rewrite Nat.add_1_r.
    repeat split; auto using lang.
  - destruct s as [|x s']; [discriminate|].
    destruct (p x) eqn:E; [|discriminate].
    exists [x], s', cap. simpl. rewrite Nat.add_1_r.
    repeat split; auto using lang.
  - apply IH1 in H. destruct H as (w1 & s1 & cap1 & -> & L1 & K).
    apply IH2 in K. destruct K as (w2 & s2 & cap2 & -> & L2 & K).
    exists (w1 ++ w2), s2, cap2.
    rewrite length_app, Nat.add_assoc, <- app_assoc.
    repeat split; auto using lang.
  - destruct (run r1 pos s cap k) as [m'|] eqn:E.
    + inversion H; subst m'.
      apply IH1 in E. destruct E as (w & s' & cap' & -> & L & K).
      exists w, s', cap'. repeat split; auto using lang.
    + apply IH2 in H. destruct H as (w & s' & cap' & -> & L & K).
      exists w, s', cap'. repeat split; auto using lang.
  - eapply star_sound; eauto.
  - apply IH1 in H. destruct H as (w & s' & cap' & -> & L & K).
    exists w, s', (Some (firstn (pos + length w - pos) (w ++ s'))).
    repeat split; auto using lang.
Qed.

(** The group [num] of a match of [Num r] followed by [r'] is the word
    of [r] that was matched. *)
Lemma run_num_sound r pos s cap k m :
  run (Num r) pos s cap k = Some m ->
  exists w s',
    s = w ++ s' /\ lang r w /\ k (pos + length w) s' (Some w) = Some m.
Proof.
  simpl. intros H. apply run_sound in H.
  destruct H as (w & s' & cap' & -> & L & K).
  exists w, s'. repeat split; auto.
  replace (pos + length w - pos) with (length w) in K by lia.
  rewrite firstn_app, Nat.sub_diag, firstn_all in K. simpl in K.
  rewrite app_nil_r in K. exact K.
Qed.

End ReFacts.

(** A match of [NUM_PAT]: the text is a numeral, then a backslash and the
    letter b; the group [num] is the numeral. *)
Lemma NUM_PAT_match_inv text m :
  Re.match_ NUM_PAT text = Some m ->
  exists num rest,
    text = num ++ backslash :: letter_b :: rest /\
    Re.lang numeral num /\
    Re.m_num m = Some num /\
    Re.m_end m = length num + 2.
Proof.
  unfold Re.match_, NUM_PAT. intros H.
  change (Re.run (Re.Num numeral) 0 text None
            (fun pos1 s1 cap1 =>
               Re.run (Re.Cat (Re.Chr backslash) (Re.Chr letter_b))
                      pos1 s1 cap1
                      (fun pos _ cap => Some {| Re.m_end := pos; Re.m_num := cap |}))
          = Some m) in H.
  apply ReFacts.run_num_sound in H.
  destruct H as (num & s' & -> & L & K). simpl in K.
  destruct s' as [|x s']; [discriminate|].
  destruct (N.eqb x backslash) eqn:E1; [|discriminate].
  destruct s' as [|y rest]; [discriminate|].
  destruct (N.eqb y letter_b) eqn:E2; [|discriminate].
  apply N.eqb_eq in E1, E2; subst x y.
  inversion K; subst m; clear K. simpl.
  exists num, rest. repeat split; auto. lia.
Qed.

(** ** The numerals of [NUM_PAT] *)

Lemma lang_star_set p w :
  Re.lang (Re.Star (Re.Set_ p)) w -> Forall (fun c => p c = true) w.
Proof.
  intros H. remember (Re.Star (Re.Set_ p)) as r eqn:Er.
  induction H; try discriminate.
  - constructor.
  - inversion Er; subst r. clear IHlang1.
    inversion H; subst. simpl. constructor; auto.
Qed.

Lemma lang_plus_set p w :
  Re.lang (Re.Plus (Re.Set_ p)) w ->
  w <> [] /\ Forall (fun c => p c = true) w.
Proof.
  unfold Re.Plus. intros H. inversion H; subst.
  match goal with
  | H1 : Re.lang (Re.Set_ p) _ |- _ => inversion H1; subst
  end.
  split; [discriminate|]. simpl. constructor; auto.
  now apply lang_star_set.
Qed.

Lemma has_false_of_Forall (p : N -> bool) c w :
  p c = false -> Forall (fun x => p x = true) w -> Str.has c w = false.
Proof.
  intros Hc H. induction H as [|x w Hx _ IH]; [reflexivity|].
  unfold Str.has in *. simpl. rewrite IH, orb_false_r.
  apply N.eqb_neq. intros <-. congruence.
Qed.

Lemma has_app c a b : Str.has c (a ++ b) = Str.has c a || Str.has c b.
Proof. unfold Str.has. apply existsb_app. Qed.

(** Integers, Roman numerals and chapter markers hold no dot. *)
Lemma integer_no_dot num :
  Re.lang (Re.Plus (Re.Set_ digit)) num -> Str.has dot num = false.
Proof.
  intros H. apply lang_plus_set in H as [_ H].
  now apply (has_false_of_Forall digit).
Qed.

Lemma roman_no_dot num :
  Re.lang roman_numeral num -> Str.has dot num = false.
Proof.
  intros H. apply lang_plus_set in H as [_ H].
  now apply (has_false_of_Forall roman).
Qed.

Lemma chapter_no_dot num :
  Re.lang chapter_marker num -> Str.has dot num = false.
Proof.
  unfold chapter_marker. intros H.
  inversion H as [| | |r1 r2 w1 w2 H1 H2| | | | |]; subst.
  inversion H1; subst.
  inversion H2 as [| | |r1 r2 w3 w4 H3 H4| | | | |]; subst.
  inversion H4; subst.
  apply lang_plus_set in H3 as [_ H3].
  rewrite !has_app, (@has_false_of_Forall kanji dot w3 eq_refl H3); reflexivity.
Qed.

Lemma numeral_cases num :
  Re.lang numeral num ->
  Re.lang decimal_numeral num \/ Re.lang roman_numeral num
  \/ Re.lang chapter_marker num.
Proof.
  unfold numeral. intros H.
  inversion H; subst; auto.
  match goal with
  | H1 : Re.lang (Re.Alt roman_numeral chapter_marker) _ |- _ =>
      inversion H1; subst; auto
  end.
Qed.

Lemma zmin_min a b : Py.zmin a b = Z.min a b.
Proof. unfold Py.zmin. destruct (Z.ltb_spec b a); lia. Qed.

(** What [numbering_level] returns on a match with group [num]. *)
Lemma numbering_level_match text m num :
  Re.match_ NUM_PAT text = Some m ->
  Re.m_num m = Some num ->
  numbering_level text =
    Ok (Some (if Str.has dot num
              then Z.min (Z.of_nat (Str.count dot num) + 1) 3
              else 1%Z)).
Proof.
  intros Hm Hn. unfold numbering_level. rewrite Hm, Hn.
  destruct (Str.has dot num); [now rewrite zmin_min|].
  now destruct (existsb _ _).
Qed.

(** [numbering_level] never raises. *)
Lemma numbering_level_total text :
  exists n, numbering_level text = Ok n.
Proof.
  destruct (Re.match_ NUM_PAT text) as [m|] eqn:Hm.
  - destruct (NUM_PAT_match_inv _ Hm) as (num & rest & _ & _ & Hn & _).
    eexists. eapply numbering_level_match; eauto.
  - unfold numbering_level. rewrite Hm. eauto.
Qed.

(** ** Floats: the order of the positive ones *)

Module FloatFacts.

Lemma positive_cases x :
  positive x = true ->
  (exists m e, Prim2SF x = S754_finite false m e)
  \/ Prim2SF x = S754_infinity false.
Proof.
  unfold positive, Py.gtb. rewrite ltb_spec.
  change (Prim2SF 0%float) with (S754_zero false).
  destruct (Prim2SF x) as [s|s| |s m e]; simpl; try discriminate;
    destruct s; try discriminate; eauto.
Qed.

Ltac compare_cases :=
  unfold SFltb, SFcompare in *;
  rewrite ?Pos.compare_cont_spec in *; simpl Pos.switch_Eq in *;
  repeat match goal with
    | H : context [Z.compare ?a ?b] |- _ =>
        destruct (Z.compare_spec a b); try discriminate
    | |- context [Z.compare ?a ?b] =>
        destruct (Z.compare_spec a b); try discriminate
    | H : context [Pos.compare ?a ?b] |- _ =>
        destruct (Pos.compare_spec a b); try discriminate
    | |- context [Pos.compare ?a ?b] =>
        destruct (Pos.compare_spec a b); try discriminate
    end.

Ltac positive_forms :=
  rewrite ?ltb_spec in *;
  repeat match goal with
    | H : positive ?x = true |- _ =>
        apply positive_cases in H;
        let m := fresh "m" in
        let e := fresh "e" in
        let E := fresh "E" in
        destruct H as [(m & e & E)|E]; rewrite ?E in *
    end.

Lemma ltb_asym x y :
  positive x = true -> positive y = true ->
  ltb x y = true -> ltb y x = false.
Proof.
  intros Hx Hy H. positive_forms; try reflexivity; try discriminate.
  compare_cases; subst; try reflexivity; lia.
Qed.

(** Two positive floats that are not ordered are the same float. *)
Lemma ltb_connex x y :
  positive x = true -> positive y = true ->
  ltb x y = false -> ltb y x = false -> x = y.
Proof.
  intros Hx Hy H1 H2. apply Prim2SF_inj. positive_forms;
    try reflexivity; try discriminate.
  compare_cases; subst; try reflexivity; lia.
Qed.

Lemma ltb_negtrans x y z :
  positive x = true -> positive y = true -> positive z = true ->
  ltb z x = false -> ltb z y = true -> ltb x y = true.
Proof.
  intros Hx Hy Hz H1 H2. positive_forms;
    try reflexivity; try discriminate.
  compare_cases; subst; try reflexivity; try discriminate; lia.
Qed.

End FloatFacts.

(** ** [sorted] does not depend on the order of its input *)

Section SortedPermutation.
Variable A : Type.
Variable lt : A -> A -> bool.
Variable D : A -> Prop.
Hypothesis lt_asym : forall x y, D x -> D y -> lt x y = true -> lt y x = false.
Hypothesis lt_connex :
  forall x y, D x -> D y -> lt x y = false -> lt y x = false -> x = y.
Hypothesis lt_negtrans :
  forall x y z, D x -> D y -> D z ->
                lt z x = false -> lt z y = true -> lt x y = true.

Lemma insert_Forall x l : D x -> Forall D l -> Forall D (Py.insert lt x l).
Proof.
  intros Hx H. induction H as [|y l Hy H IH]; simpl.
  - auto.
  - destruct (lt y x); auto.
Qed.

Lemma sorted_Forall l : Forall D l -> Forall D (Py.sorted lt l).
Proof.
  intros H. induction H; simpl; auto using insert_Forall.
Qed.

Lemma insert_comm x y l :
  D x -> D y -> Forall D l ->
  Py.insert lt x (Py.insert lt y l) = Py.insert lt y (Py.insert lt x l).
Proof.
  intros Hx Hy H. induction H as [|z l Hz H IH]; simpl.
  - destruct (lt y x) eqn:Eyx, (lt x y) eqn:Exy; auto.
    + rewrite (lt_asym Hy Hx Eyx) in Exy. discriminate.
    + now rewrite (lt_connex Hx Hy Exy Eyx).
  - destruct (lt z y) eqn:Ezy, (lt z x) eqn:Ezx; simpl;
      rewrite ?Ezy, ?Ezx.
    + now rewrite IH.
    + now rewrite (lt_negtrans Hx Hy Hz Ezx Ezy).
    + now rewrite (lt_negtrans Hy Hx Hz Ezy Ezx).
    + destruct (lt y x) eqn:Eyx, (lt x y) eqn:Exy; simpl;
        rewrite ?Ezy, ?Ezx; auto.
      * rewrite (lt_asym Hy Hx Eyx) in Exy. discriminate.
      * now rewrite (lt_connex Hx Hy Exy Eyx).
Qed.

Lemma sorted_Permutation l l' :
  Permutation l l' -> Forall D l -> Py.sorted lt l = Py.sorted lt l'.
Proof.
  induction 1 as [|x l l' P IH|x y l|l l' l'' P1 IH1 P2 IH2]; intros HD.
  - reflexivity.
  - simpl. inversion HD; subst. now rewrite IH.
  - simpl. inversion HD as [|? ? Hy HD']; subst.
    inversion HD' as [|? ? Hx HD'']; subst.
    apply insert_comm; auto using sorted_Forall.
  - rewrite IH1 by assumption. apply IH2.
    eapply Permutation_Forall; eauto.
Qed.

Lemma insert_length x l : length (Py.insert lt x l) = S (length l).
Proof.
  induction l as [|y l IH]; simpl; [reflexivity|].
  destruct (lt y x); simpl; now rewrite ?IH.
Qed.

Lemma sorted_length l : length (Py.sorted lt l) = length l.
Proof.
  induction l as [|x l IH]; simpl; [reflexivity|].
  now rewrite insert_length, IH.
Qed.

End SortedPermutation.

(** ** [statistics]: the results do not depend on the order of the data *)

Module StatFacts.
Import statistics.

Lemma Forall_positive l :
  Forall (fun x => positive x = true) (filter positive l).
Proof.
  apply Forall_forall. intros x Hx. now apply filter_In in Hx.
Qed.

(** The median of positive floats. *)
Lemma median_Permutation l l' :
  Permutation l l' -> Forall (fun x => positive x = true) l ->
  median l = median l'.
Proof.
  intros P H. unfold median.
  now rewrite (@sorted_Permutation _ ltb (fun x => positive x = true)
                 FloatFacts.ltb_asym FloatFacts.ltb_connex
                 FloatFacts.ltb_negtrans _ _ P H).
Qed.

Lemma Qplus_comm_eq (a b : Q) : Qplus a b = Qplus b a.
Proof.
  unfold Qplus. f_equal; [ring | apply Pos.mul_comm].
Qed.

Lemma Qplus_assoc_eq (a b c : Q) : Qplus a (Qplus b c) = Qplus (Qplus a b) c.
Proof.
  unfold Qplus. simpl. f_equal.
  - rewrite !Pos2Z.inj_mul. ring.
  - apply Pos.mul_assoc.
Qed.

Lemma Qsum_Permutation qs qs' : Permutation qs qs' -> Qsum qs = Qsum qs'.
Proof.
  unfold Qsum. induction 1; simpl.
  - reflexivity.
  - now f_equal.
  - now rewrite !Qplus_assoc_eq, (Qplus_comm_eq y x).
  - congruence.
Qed.

Lemma exact_ratios_Permutation l l' :
  Permutation l l' -> same_ratios (exact_ratios l) (exact_ratios l').
Proof.
  induction 1 as [|x l l' P IH|x y l|l l' l'' P1 IH1 P2 IH2]; simpl.
  - constructor.
  - destruct (exact_ratio x), (exact_ratios l), (exact_ratios l');
      simpl in *; auto.
  - destruct (exact_ratio x), (exact_ratio y), (exact_ratios l);
      simpl; auto. apply perm_swap.
  - destruct (exact_ratios l), (exact_ratios l'), (exact_ratios l'');
      simpl in *; try contradiction; auto.
    eapply perm_trans; eauto.
Qed.

Lemma stdev_Permutation l l' : Permutation l l' -> stdev l = stdev l'.
Proof.
  intros P. unfold stdev.
  rewrite <- (Permutation_length P).
  destruct (Nat.ltb (length l) 2); [reflexivity|].
  pose proof (exact_ratios_Permutation P) as R.
  destruct (exact_ratios l) as [qs|], (exact_ratios l') as [qs'|];
    simpl in R; try contradiction; [|reflexivity].
  rewrite (Qsum_Permutation R).
  now rewrite (Qsum_Permutation (Permutation_map (fun q => Qmult q q) R)).
Qed.

End StatFacts.

(** ** score_lines: the order of the lines *)

Lemma filter_Permutation (A : Type) (p : A -> bool) l l' :
  Permutation l l' -> Permutation (filter p l) (filter p l').
Proof.
  induction 1 as [|x l l' P IH|x y l|l l' l'' P1 IH1 P2 IH2]; simpl.
  - constructor.
  - destruct (p x); auto.
  - destruct (p x), (p y); auto using perm_swap.
  - eapply perm_trans; eauto.
Qed.

(** The font sizes of the statistics, with their fallback. *)
Lemma font_sizes_Permutation (fs fs' : list float) :
  Permutation fs fs' ->
  Permutation (match fs with [] => [10%float] | _ => fs end)
              (match fs' with [] => [10%float] | _ => fs' end).
Proof.
  intros P. destruct fs as [|x fs].
  - apply Permutation_nil in P. subst. auto.
  - destruct fs' as [|y fs']; [|exact P].
    apply Permutation_sym, Permutation_nil in P. discriminate.
Qed.

Lemma leadings_Permutation (A : Type) (ld ld' : list float) (a : A)
      (f : list float -> A) :
  Permutation ld ld' -> f ld = f ld' ->
  match ld with [] => a | _ => f ld end
  = match ld' with [] => a | _ => f ld' end.
Proof.
  intros P E. destruct ld as [|x ld].
  - apply Permutation_nil in P. now subst.
  - destruct ld' as [|y ld']; [|exact E].
    apply Permutation_sym, Permutation_nil in P. discriminate.
Qed.

Lemma min_nonempty (l : list float) : l <> [] -> exists m, Py.min l = Ok m.
Proof. destruct l; [congruence|]. simpl. eauto. Qed.

(** [score_lines] computes three statistics of the document and then scores
    every line by [line_score] with them. *)
Lemma score_lines_stats lines :
  lines <> [] ->
  score_lines lines =
    (let sizes := filter positive (map Line.avg_font_size lines) in
     let font_sizes := match sizes with [] => [10%float] | _ => sizes end in
     let leadings := filter positive (map Line.leading lines) in
     median_size <- statistics.median font_sizes ;;
     stdev_size <- (if Nat.ltb 1 (length font_sizes)
                    then statistics.stdev font_sizes else Ok 1%float) ;;
     median_leading <- (match leadings with
                        | [] => Ok 0%float
                        | _ => statistics.median leadings
                        end) ;;
     Ok (map (fun l =>
                {| Scored.line := l;
                   Scored.score :=
                     line_score median_size stdev_size median_leading l |})
             lines)).
Proof.
  intros Hne. unfold score_lines.
  destruct lines as [|l0 lines]; [congruence|].
  destruct (min_nonempty (l := map Line.x0 (l0 :: lines))) as [m Hm];
    [discriminate|].
  rewrite Hm. cbv zeta.
  set (fs := match filter positive (map Line.avg_font_size (l0 :: lines)) with
             | [] => _ | _ => _ end).
  set (ld := filter positive (map Line.leading (l0 :: lines))).
  destruct (statistics.median fs) as [ms|]; [|reflexivity]. cbn [bind].
  destruct (if Nat.ltb 1 _ then _ else _) as [sd|]; [|reflexivity]. cbn [bind].
  destruct (match ld with [] => _ | _ => _ end) as [ml|]; reflexivity.
Qed.

(** C9. Scoring does not depend on the order of the lines: for a list of
    lines and a permutation of it, [score_lines] either raises the same
    exception on both, or gives every line, on both, the score of one and
    the same function of the line. *)
Theorem score_lines_order_independent (lines lines' : list Line.t) :
  Permutation lines lines' ->
  (exists f : Line.t -> float,
      score_lines lines
      = Ok (map (fun l => {| Scored.line := l; Scored.score := f l |}) lines)
      /\ score_lines lines'
         = Ok (map (fun l => {| Scored.line := l; Scored.score := f l |}) lines'))
  \/ (exists e, score_lines lines = Raise e /\ score_lines lines' = Raise e).
Proof.
  intros P.
  destruct lines as [|l0 lines].
  { apply Permutation_nil in P. subst. left. exists (fun _ => 0%float). auto. }
  assert (Hne' : lines' <> []).
  { intros ->. apply Permutation_sym, Permutation_nil in P. discriminate. }
  rewrite (score_lines_stats (lines := l0 :: lines)) by discriminate.
  rewrite (score_lines_stats Hne').
  cbv zeta.
  pose proof (filter_Permutation positive
                (Permutation_map Line.avg_font_size P)) as Ps.
  pose proof (filter_Permutation positive
                (Permutation_map Line.leading P)) as Pl.
  pose proof (font_sizes_Permutation Ps) as Pf.
  set (fs := match filter positive (map Line.avg_font_size (l0 :: lines)) with
             | [] => _ | _ => _ end) in *.
  set (fs' := match filter positive (map Line.avg_font_size lines') with
              | [] => _ | _ => _ end) in *.
  assert (Hpos : Forall (fun x => positive x = true) fs).
  { subst fs. destruct (filter positive (map Line.avg_font_size (l0 :: lines)))
      eqn:E; [repeat constructor|].
    rewrite <- E. apply StatFacts.Forall_positive. }
  rewrite <- (StatFacts.median_Permutation Pf Hpos).
  rewrite <- (StatFacts.stdev_Permutation Pf).
  rewrite <- (Permutation_length Pf).
  rewrite <- (leadings_Permutation (Ok 0%float) statistics.median Pl
                (StatFacts.median_Permutation Pl
                   (StatFacts.Forall_positive _))).
  destruct (statistics.median fs) as [ms|e]; [|right; exists e; auto].
  cbn [bind].
  destruct (if Nat.ltb 1 _ then _ else _) as [sd|e]; [|right; exists e; auto].
  cbn [bind].
  destruct (match filter positive (map Line.leading (l0 :: lines)) with
            | [] => _ | _ => _ end) as [ml|e]; [|right; exists e; auto].
  cbn [bind]. left. exists (line_score ms sd ml). auto.
Qed.

(** ** [round] and the indexing of lists do not raise when in range *)

Lemma round_finite x : is_finite x = true -> exists z, Py.round x = Ok z.
Proof.
  unfold is_finite, is_nan, is_infinity, Py.round.
  rewrite !eqb_spec, abs_spec.
  change (Prim2SF infinity) with (S754_infinity false).
  destruct (Prim2SF x) as [s|s| |s m e]; simpl; intros H;
    try discriminate; eauto.
  destruct s; discriminate.
Qed.

Lemma index_in_range (A : Type) (l : list A) i :
  i < length l -> exists a, Py.index l i = Ok a.
Proof.
  intros H. unfold Py.index.
  destruct (nth_error l i) eqn:E; eauto.
  apply nth_error_None in E. lia.
Qed.

Lemma str_eqb_eq (a b : str) : Str.eqb a b = true <-> a = b.
Proof.
  revert b. induction a as [|x a IH]; intros [|y b]; simpl;
    try (split; [discriminate|discriminate]); try tauto.
  rewrite andb_true_iff, N.eqb_eq, IH.
  split; [intros [-> ->]; reflexivity|intros H; inversion H; auto].
Qed.

(** ** assign_levels *)

Lemma thresholds_of_total sizes :
  sizes <> [] ->
  exists th, thresholds_of sizes = Ok th /\ length th = 3.
Proof.
  intros Hne. unfold thresholds_of.
  destruct (Nat.leb 3 (length sizes)) eqn:E.
  - apply Nat.leb_le in E.
    destruct (@index_in_range _ sizes (length sizes - 1)) as [a ->]; [lia|].
    destruct (@index_in_range _ sizes (length sizes - 2)) as [b ->]; [lia|].
    destruct (@index_in_range _ sizes (length sizes - 3)) as [c ->]; [lia|].
    simpl. eauto.
  - apply Nat.leb_gt in E.
    destruct (@index_in_range _ sizes 0) as [a ->];
      [destruct sizes; simpl; [congruence|lia]|].
    cbn [bind]. eexists. split; [reflexivity|].
    rewrite length_app, length_rev, repeat_length. lia.
Qed.

Lemma font_level_total th size :
  2 <= length th ->
  exists f, font_level th size = Ok f /\ (1 <= f <= 3)%Z.
Proof.
  intros H. unfold font_level.
  destruct (@index_in_range _ th 0) as [a ->]; [lia|].
  destruct (@index_in_range _ th 1) as [b ->]; [lia|].
  simpl. destruct (Py.geb size a); [eexists; split; [reflexivity|lia]|].
  destruct (Py.geb size b); eexists; (split; [reflexivity|lia]).
Qed.

Lemma font_level_range th size f :
  font_level th size = Ok f -> (1 <= f <= 3)%Z.
Proof.
  unfold font_level.
  destruct (Py.index th 0) as [a|]; [|discriminate]. simpl.
  destruct (Py.geb size a); [intros H; inversion H; lia|].
  destruct (Py.index th 1) as [b|]; [|discriminate]. simpl.
  destruct (Py.geb size b); intros H; inversion H; lia.
Qed.

Lemma numbering_level_range text n :
  numbering_level text = Ok (Some n) -> (1 <= n <= 3)%Z.
Proof.
  unfold numbering_level.
  destruct (Re.match_ NUM_PAT text) as [m|]; [|discriminate].
  destruct (Re.m_num m) as [num|]; [|discriminate].
  destruct (Str.has dot num).
  - intros H. inversion H. rewrite zmin_min. lia.
  - destruct (existsb _ _); intros H; inversion H; lia.
Qed.

Lemma level_of_range th l lv :
  level_of th l = Ok lv -> (1 <= lv <= 3)%Z.
Proof.
  unfold level_of.
  destruct (font_level th (Line.avg_font_size l)) as [f|] eqn:Ef;
    [|discriminate].
  apply font_level_range in Ef. simpl.
  destruct (numbering_level (Line.text l)) as [[n|]|] eqn:En;
    [| |discriminate]; simpl.
  - apply numbering_level_range in En.
    destruct (Z.eqb n 0); rewrite ?zmin_min;
      destruct (_ && _); rewrite ?zmin_min; intros H; inversion H; lia.
  - destruct (_ && _); rewrite ?zmin_min; intros H; inversion H; lia.
Qed.

Lemma level_of_total th l :
  2 <= length th -> exists lv, level_of th l = Ok lv.
Proof.
  intros H. unfold level_of.
  destruct (font_level_total th (Line.avg_font_size l) H) as (f & -> & _).
  destruct (numbering_level_total (Line.text l)) as [n ->].
  simpl. eauto.
Qed.

Lemma level_string lv :
  (1 <= lv <= 3)%Z -> level_str_ok (lit "H" ++ Py.str_of_Z lv).
Proof.
  intros H. unfold level_str_ok.
  assert (lv = 1 \/ lv = 2 \/ lv = 3)%Z as [->|[->| ->]] by lia;
    vm_compute; auto.
Qed.

(** The loop emits entries with a level of the three, after the ones it
    holds already, and its first candidate always. *)
Lemma emit_spec th cands : forall outline seen out,
  emit th cands outline seen = Ok out ->
  exists more,
    out = outline ++ more /\ Forall level_ok more
    /\ (seen = [] -> cands <> [] -> more <> []).
Proof.
  induction cands as [|l rest IH]; intros outline seen out H; simpl in H.
  - inversion H; subst. exists []. rewrite app_nil_r.
    repeat split; auto.
  - destruct (level_of th l) as [lv|] eqn:El; [|discriminate].
    apply level_of_range in El. cbn [bind] in H.
    destruct (Py.round (Line.top l)) as [y|]; [|discriminate].
    cbn [bind] in H.
    destruct (existsb _ seen) eqn:Es.
    + apply IH in H. destruct H as (more & -> & Hok & _).
      exists more. repeat split; auto.
      intros ->. discriminate.
    + apply IH in H. destruct H as (more & -> & Hok & _).
      eexists (_ :: more). rewrite <- app_assoc. simpl.
      repeat split; [|discriminate].
      constructor; [|exact Hok].
      unfold level_ok. simpl. now apply level_string.
Qed.

Lemma emit_total th cands : forall outline seen,
  2 <= length th ->
  Forall (fun c : Scored.t => is_finite (Line.top c) = true) cands ->
  exists out, emit th cands outline seen = Ok out.
Proof.
  induction cands as [|l rest IH]; intros outline seen Hth Hfin; simpl.
  - eauto.
  - inversion Hfin as [|? ? Hl Hrest]; subst.
    destruct (level_of_total th l Hth) as [lv ->].
    destruct (round_finite _ Hl) as [y ->]. cbn [bind].
    destruct (existsb _ seen); auto.
Qed.

Lemma guarantee_h1_spec outline :
  Forall2 promoted outline (guarantee_h1 outline)
  /\ (outline <> [] -> Exists is_H1 (guarantee_h1 outline)).
Proof.
  assert (Hrefl : forall l : list Entry.t, Forall2 promoted l l).
  { induction l; constructor; unfold promoted; auto. }
  unfold guarantee_h1.
  destruct (existsb (has_level (lit "H1")) outline) eqn:E; simpl.
  - split; [apply Hrefl|]. intros _.
    apply existsb_exists in E. destruct E as (o & Hin & Ho).
    apply Exists_exists. exists o. split; [assumption|].
    now apply str_eqb_eq in Ho.
  - destruct outline as [|o rest].
    + split; [constructor|congruence].
    + split; [constructor; unfold promoted; auto|].
      intros _. constructor. reflexivity.
Qed.

Lemma demote_isolated_h3_spec todo : forall done,
  exists todo',
    demote_isolated_h3 done todo = done ++ todo' /\ Forall2 repaired todo todo'.
Proof.
  induction todo as [|o rest IH]; intros done; simpl.
  - exists []. rewrite app_nil_r. auto.
  - match goal with
    | |- context [demote_isolated_h3 (done ++ [?x]) rest] =>
        destruct (IH (done ++ [x])) as (todo' & -> & HR);
        exists (x :: todo')
    end.
    rewrite <- app_assoc. split; [reflexivity|].
    constructor; [|exact HR].
    destruct (has_level (lit "H3") o) eqn:E3; simpl; [|left; reflexivity].
    destruct (existsb _ done); simpl; [left; reflexivity|].
    right. split; [|reflexivity]. now apply str_eqb_eq in E3.
Qed.

Lemma Forall2_Forall (A B : Type) (R : A -> B -> Prop) (P : A -> Prop)
      (Q : B -> Prop) l l' :
  (forall x y, R x y -> P x -> Q y) ->
  Forall2 R l l' -> Forall P l -> Forall Q l'.
Proof.
  intros HR H. induction H; intros HP; inversion HP; subst; eauto.
Qed.

Lemma Forall2_Exists (A B : Type) (R : A -> B -> Prop) (P : A -> Prop)
      (Q : B -> Prop) l l' :
  (forall x y, R x y -> P x -> Q y) ->
  Forall2 R l l' -> Exists P l -> Exists Q l'.
Proof.
  intros HR H. induction H; intros HP; inversion HP; subst; eauto.
Qed.

Lemma Forall2_nonempty (A B : Type) (R : A -> B -> Prop) l l' :
  Forall2 R l l' -> l <> [] -> l' <> [].
Proof. intros H. destruct H; congruence. Qed.

Lemma repaired_level_ok o o' : repaired o o' -> level_ok o -> level_ok o'.
Proof.
  intros [->|[_ ->]] H; [exact H|]. right. left. reflexivity.
Qed.

Lemma repaired_is_H1 o o' : repaired o o' -> is_H1 o -> is_H1 o'.
Proof.
  unfold is_H1. intros [->|[E _]] H; [exact H|].
  rewrite H in E. discriminate.
Qed.

Lemma sizes_nonempty (cands : list Scored.t) :
  cands <> [] ->
  Py.sorted ltb (dedup (map (fun l : Scored.t => Line.avg_font_size l) cands))
  <> [].
Proof.
  intros Hne E. apply (f_equal (@length float)) in E.
  rewrite sorted_length in E. destruct cands; [congruence|discriminate].
Qed.

(** [assign_levels] on candidates: the outline comes from the entries the
    loop emitted by the two repairs. *)
Lemma assign_levels_inv cands outline :
  cands <> [] ->
  assign_levels cands = Ok outline ->
  exists emitted0 promoted,
    emitted cands = Ok emitted0
    /\ emitted0 <> [] /\ Forall level_ok emitted0
    /\ promoted = guarantee_h1 emitted0
    /\ outline = demote_isolated_h3 [] promoted
    /\ Forall2 repaired promoted outline.
Proof.
  intros Hne H. unfold assign_levels in H.
  destruct cands as [|c cands]; [congruence|].
  destruct (emitted (c :: cands)) as [o0|] eqn:E; [|discriminate].
  cbn [bind] in H. inversion H; subst outline; clear H.
  exists o0, (guarantee_h1 o0).
  unfold emitted in E.
  destruct (thresholds_of _) as [th|]; [|discriminate]. cbn [bind] in E.
  apply emit_spec in E. destruct E as (more & -> & Hok & Hmore).
  simpl app.
  destruct (demote_isolated_h3_spec (guarantee_h1 more) []) as (g' & Eg & HR).
  rewrite Eg. simpl.
  repeat split; auto.
Qed.

(** C10. For a non-empty list of candidates, [assign_levels] returns when
    every [top] is a finite float, and an outline it returns is not empty,
    has only levels H1, H2 and H3, and has an entry of level H1. *)
Theorem assign_levels_outline (cands : list Scored.t) :
  cands <> [] ->
  (Forall (fun c : Scored.t => is_finite (Line.top c) = true) cands ->
   exists outline, assign_levels cands = Ok outline)
  /\ (forall outline,
        assign_levels cands = Ok outline ->
        outline <> []
        /\ Forall (fun o => Entry.level o = lit "H1"
                            \/ Entry.level o = lit "H2"
                            \/ Entry.level o = lit "H3") outline
        /\ Exists (fun o => Entry.level o = lit "H1") outline).
Proof.
  intros Hne. split.
  - intros Hfin. unfold assign_levels.
    destruct cands as [|c cands']; [congruence|].
    unfold emitted.
    destruct (thresholds_of_total (sizes_nonempty Hne)) as (th & -> & Hth).
    cbn [bind].
    destruct (@emit_total th (c :: cands') [] []) as [out ->]; [lia|auto|].
    cbn [bind]. eauto.
  - intros outline H.
    destruct (assign_levels_inv Hne H)
      as (o0 & g & _ & Hne0 & Hok & -> & _ & HR).
    destruct (guarantee_h1_spec o0) as [HG HH1].
    repeat split.
    + eapply Forall2_nonempty; [exact HR|].
      eapply Forall2_nonempty; [exact HG|exact Hne0].
    + eapply Forall2_Forall; [exact repaired_level_ok|exact HR|].
      eapply Forall2_Forall; [|exact HG|exact Hok].
      intros x y [->| ->] Hx; [exact Hx|]. left. reflexivity.
    + eapply Forall2_Exists; [exact repaired_is_H1|exact HR|auto].
Qed.

(** C3. When the loop of [assign_levels] emits three entries of levels
    H3, H2, H1, the repair pass makes them H2, H2, H1: the first entry has no
    H2 before it, the others stay as they are, and so do texts and pages. *)
Theorem repair_of_H3_H2_H1 (cands : list Scored.t) (emitted0 : list Entry.t) :
  emitted cands = Ok emitted0 ->
  map Entry.level emitted0 = [lit "H3"; lit "H2"; lit "H1"] ->
  exists outline,
    assign_levels cands = Ok outline
    /\ outline = demote_isolated_h3 [] emitted0
    /\ map Entry.level outline = [lit "H2"; lit "H2"; lit "H1"]
    /\ map Entry.text outline = map Entry.text emitted0
    /\ map Entry.page outline = map Entry.page emitted0.
Proof.
  intros E L.
  destruct cands as [|c cands]; [discriminate|].
  unfold assign_levels. rewrite E. cbn [bind].
  destruct emitted0 as [|[la ta pa] [|[lb tb pb] [|[lc tc pc] [|? ?]]]];
    try discriminate.
  simpl in L. inversion L; subst la lb lc.
  eexists. split; [reflexivity|].
  repeat split.
Qed.

(** ** Candidate selection *)

Lemma filterM_ok (A : Type) (p : A -> result bool) (q : A -> bool) l :
  (forall a, p a = Ok (q a)) -> Py.filterM p l = Ok (filter q l).
Proof.
  intros H. induction l as [|a l IH]; simpl; [reflexivity|].
  rewrite H, IH. simpl. now destruct (q a).
Qed.

(** C2. A line is a candidate exactly when its score is at least the mean of
    the scores plus their sample standard deviation, the deviation being 0
    for fewer than two lines; no lines give the threshold 0 and no
    candidates. *)
Theorem candidate_selection (scored : list Scored.t) :
  (scored = [] -> scored_threshold scored = Ok 0%float /\ candidates scored = Ok [])
  /\ (forall mean stdev,
        scored <> [] ->
        statistics.mean (map Scored.score scored) = Ok mean ->
        (if Nat.ltb (length scored) 2 then Ok 0%float
         else statistics.stdev (map Scored.score scored)) = Ok stdev ->
        scored_threshold scored = Ok (mean + stdev)%float
        /\ exists cands,
            candidates scored = Ok cands
            /\ forall l, In l cands <->
                         In l scored
                         /\ Py.geb (Scored.score l) (mean + stdev) = true).
Proof.
  split.
  - intros ->. split; reflexivity.
  - intros mean stdev Hne Hm Hs.
    assert (Ht : scored_threshold scored = Ok (mean + stdev)%float).
    { unfold scored_threshold.
      destruct scored as [|s0 scored']; [congruence|].
      change (map Scored.score (s0 :: scored'))
        with (Scored.score s0 :: map Scored.score scored') in *.
      cbv iota beta. rewrite Hm. cbn [bind].
      replace (Nat.ltb 1 (length (Scored.score s0 :: map Scored.score scored')))
        with (negb (Nat.ltb (length (s0 :: scored')) 2)).
      - destruct (Nat.ltb (length (s0 :: scored')) 2); simpl negb; cbv iota;
          rewrite Hs; reflexivity.
      - simpl length. rewrite length_map.
        destruct (length scored'); reflexivity. }
    split; [exact Ht|].
    exists (filter (fun l => Py.geb (Scored.score l) (mean + stdev)) scored).
    split.
    + unfold candidates. apply filterM_ok. intros a. now rewrite Ht.
    + intros l. apply filter_In.
Qed.

(** ** The empty document *)

Lemma pages_lines_empty isupper pages : forall start,
  Forall (fun page : list Word.t => page = []) pages ->
  pages_lines isupper start pages = Ok [].
Proof.
  induction pages as [|page rest IH]; intros start H; simpl.
  - reflexivity.
  - inversion H; subst. simpl. now rewrite IH.
Qed.

Lemma process_pdf_empty lower isupper doc :
  pages_lines isupper 1 (pages doc) = Ok [] ->
  match metadata_title doc with
  | Some (MetaObj true) =>
      process_pdf lower isupper doc = Raise AttributeError
  | _ =>
      process_pdf lower isupper doc = Ok {| title := None; outline := [] |}
  end.
Proof.
  intros H. unfold process_pdf. rewrite H. cbn [bind].
  unfold drop_repeating_headers, merge_wrapped_heading_lines.
  simpl score_lines. cbn [bind]. simpl candidates. cbn [bind].
  unfold detect_title, title_from_metadata, stripped_title.
  replace (firstn 20 (@nil Scored.t)) with (@nil Scored.t) by reflexivity.
  simpl existsb.
  destruct (metadata_title doc) as [[[|c t]|[|]]|]; cbn [bind];
    try destruct (Str.strip (c :: t)); reflexivity.
Qed.

(** C5. A document without lines, and so one without pages or with no word
    on any page, gives the result with no title and an empty outline: it is
    what [main] writes for it, and what [process_pdf] returns, but for a
    title of the metadata that is a true object and no string, where
    [process_pdf] raises the [AttributeError] that [main] catches. *)
Theorem empty_pdf (lower : str -> str) (isupper : str -> bool) (doc : pdf) :
  (Forall (fun page : list Word.t => page = []) (pages doc) ->
   pages_lines isupper 1 (pages doc) = Ok [])
  /\ (pages_lines isupper 1 (pages doc) = Ok [] ->
      main_result lower isupper doc = {| title := None; outline := [] |}
      /\ match metadata_title doc with
         | Some (MetaObj true) =>
             process_pdf lower isupper doc = Raise AttributeError
         | _ =>
             process_pdf lower isupper doc
             = Ok {| title := None; outline := [] |}
         end).
Proof.
  split.
  - apply pages_lines_empty.
  - intros H. pose proof (process_pdf_empty lower isupper doc H) as E.
    split; [|exact E].
    unfold main_result.
    destruct (metadata_title doc) as [[t|[|]]|]; now rewrite E.
Qed.

(** ** The numbering pattern *)

Lemma NUM_PAT_needs_backslash text :
  Str.has backslash text = false -> Re.match_ NUM_PAT text = None.
Proof.
  intros H. destruct (Re.match_ NUM_PAT text) as [m|] eqn:E; [|reflexivity].
  apply NUM_PAT_match_inv in E. destruct E as (num & rest & -> & _).
  rewrite has_app in H. apply orb_false_elim in H as [_ H].
  discriminate.
Qed.

(** C1. The text "1. Introduction" begins with a numeral at a word
    boundary, and [score_lines] does not add 1.5 to the score of its line:
    [NUM_PAT] asks for a backslash and the letter b after the numeral, so
    that no text without a backslash matches.  The score 2.25 of the line is
    1 (bold) - 0.25 (two tokens) + 0.5 (indent) + 1 (top of page 1). *)
Theorem numbering_bonus_missed :
  (forall text, Str.has backslash text = false ->
                Re.match_ NUM_PAT text = None)
  /\ Re.match_ NUM_PAT (lit "1. Introduction") = None
  /\ extract_lines ascii_isupper intro_page 1 = Ok [intro_line]
  /\ score_lines [intro_line] = Ok [mk_scored intro_line 2.25].
Proof.
  split; [exact NUM_PAT_needs_backslash|].
  repeat split; vm_compute; reflexivity.
Qed.

(** The document of that one line: its line is the only candidate, the
    title, and an H1 by its font size alone. *)
Example intro_pdf_outline :
  process_pdf ascii_lower ascii_isupper intro_pdf
  = Ok {| title := Some (lit "1. Introduction");
          outline := [ {| Entry.level := lit "H1";
                          Entry.text := lit "1. Introduction";
                          Entry.page := 1 |} ] |}.
Proof. vm_compute. reflexivity. Qed.

(** With the backslash and the b in the text, the same line scores 1.5
    more. *)
Example numbering_bonus_with_backslash_b :
  score_lines
    [mk_line 1 "1\b Introduction" 24 72 300 50 74 0 0 true]
  = Ok [mk_scored (mk_line 1 "1\b Introduction" 24 72 300 50 74 0 0 true)
                  3.75].
Proof. vm_compute. reflexivity. Qed.

(** C8, as the claim states it, fails: the numeral "1.2" has one dot and
    the numbering level 2. *)
Lemma numbering_level_is_not_the_dot_count :
  Re.match_ NUM_PAT (lit "1.2\b Scope")
  = Some {| Re.m_end := 5; Re.m_num := Some (lit "1.2") |}
  /\ Str.count dot (lit "1.2") = 1
  /\ numbering_level (lit "1.2\b Scope") = Ok (Some 2%Z)
  /\ numbering_level (lit "1.2\b Scope")
     <> Ok (Some (Z.min (Z.of_nat (Str.count dot (lit "1.2"))) 3)).
Proof.
  repeat split; try (vm_compute; reflexivity).
  vm_compute. discriminate.
Qed.

(** C8, amended. On a match of the numbering pattern, the numeral [num] is
    a decimal one, a Roman one or a chapter marker; with a dot in it, it is
    a decimal numeral and the numbering level is one more than the number of
    its dots, at most 3; an integer, a Roman numeral and a chapter marker
    have the numbering level 1. *)
Theorem numbering_level_depth (text : str) (m : Re.rmatch) (num : str) :
  Re.match_ NUM_PAT text = Some m ->
  Re.m_num m = Some num ->
  (Re.lang decimal_numeral num \/ Re.lang roman_numeral num
   \/ Re.lang chapter_marker num)
  /\ (Str.has dot num = true ->
      Re.lang decimal_numeral num
      /\ numbering_level text
         = Ok (Some (Z.min (Z.of_nat (Str.count dot num) + 1) 3)))
  /\ (Re.lang (Re.Plus (Re.Set_ digit)) num \/ Re.lang roman_numeral num
      \/ Re.lang chapter_marker num ->
      numbering_level text = Ok (Some 1%Z)).
Proof.
  intros Hm Hn.
  pose proof (numbering_level_match _ Hm Hn) as Hl.
  destruct (NUM_PAT_match_inv _ Hm) as (num' & rest & _ & L & Hn' & _).
  assert (num' = num) by congruence; subst num'.
  apply numeral_cases in L.
  repeat split.
  - exact L.
  - destruct L as [L|[L|L]]; [exact L| |].
    + apply roman_no_dot in L. congruence.
    + apply chapter_no_dot in L. congruence.
  - now rewrite Hl, H.
  - intros [B|[B|B]];
      [apply integer_no_dot in B|apply roman_no_dot in B
       |apply chapter_no_dot in B];
      now rewrite Hl, B.
Qed.

Lemma numbering_level_depth_witness :
  (Re.lang decimal_numeral (lit "1.2") \/ Re.lang roman_numeral (lit "1.2")
   \/ Re.lang chapter_marker (lit "1.2"))
  /\ (Str.has dot (lit "1.2") = true ->
      Re.lang decimal_numeral (lit "1.2")
      /\ numbering_level (lit "1.2\b Scope")
         = Ok (Some (Z.min (Z.of_nat (Str.count dot (lit "1.2")) + 1) 3)))
  /\ (Re.lang (Re.Plus (Re.Set_ digit)) (lit "1.2")
      \/ Re.lang roman_numeral (lit "1.2")
      \/ Re.lang chapter_marker (lit "1.2") ->
      numbering_level (lit "1.2\b Scope") = Ok (Some 1%Z)).
Proof.
  apply (@numbering_level_depth (lit "1.2\b Scope")
           {| Re.m_end := 5; Re.m_num := Some (lit "1.2") |} (lit "1.2"));
    reflexivity.
Defined.

(** ** extract_lines never raises *)

(** The grouping loop keeps its lines non-empty, and its current line too
    once it has seen a word. *)
Lemma snoc_nonempty (A : Type) (l : list A) x : l ++ [x] <> [].
Proof. destruct l; discriminate. Qed.

Lemma group_step_invariant st w :
  Forall (fun g => g <> []) (lines st) ->
  (last_y st <> None -> current_line st <> []) ->
  Forall (fun g => g <> []) (lines (group_step st w))
  /\ last_y (group_step st w) <> None
  /\ current_line (group_step st w) <> [].
Proof.
  intros Hl Hc. unfold group_step.
  destruct (last_y st) as [y|] eqn:Ey.
  - destruct (_ <=? _)%float; simpl.
    + split; [exact Hl|]. split; [discriminate|apply snoc_nonempty].
    + split; [|split; discriminate].
      apply Forall_app. split; [exact Hl|].
      constructor; [|constructor]. apply Hc. discriminate.
  - simpl. split; [exact Hl|]. split; [discriminate|apply snoc_nonempty].
Qed.

Lemma group_fold_invariant ws : forall st,
  Forall (fun g => g <> []) (lines st) ->
  (last_y st <> None -> current_line st <> []) ->
  Forall (fun g => g <> []) (lines (fold_left group_step ws st)).
Proof.
  induction ws as [|w ws IH]; intros st Hl Hc; simpl; [exact Hl|].
  destruct (@group_step_invariant st w Hl Hc) as (Hl' & _ & Hc').
  apply IH; auto.
Qed.

Lemma group_words_nonempty words :
  Forall (fun g => g <> []) (group_words words).
Proof.
  unfold group_words.
  set (st := fold_left group_step _ _).
  assert (Hl : Forall (fun g : list Word.t => g <> []) (lines st)).
  { apply group_fold_invariant; simpl; [constructor|congruence]. }
  destruct (current_line st) as [|w ws] eqn:E; [exact Hl|].
  apply Forall_app. split; [exact Hl|].
  constructor; [discriminate|constructor].
Qed.

Lemma max_nonempty (l : list float) : l <> [] -> exists m, Py.max l = Ok m.
Proof. destruct l; [congruence|]. simpl. eauto. Qed.

Lemma map_nonempty (A B : Type) (f : A -> B) l : l <> [] -> map f l <> [].
Proof. destruct l; [congruence|discriminate]. Qed.

Lemma line_dicts_total isupper page_num words groups : forall prev,
  words <> [] ->
  Forall (fun g => g <> []) groups ->
  exists ds, line_dicts isupper page_num words prev groups = Ok ds.
Proof.
  induction groups as [|g rest IH]; intros prev Hw Hg; simpl; [eauto|].
  inversion Hg as [|? ? Hne Hrest]; subst.
  unfold line_dict.
  destruct (min_nonempty (map_nonempty Word.x0 Hne)) as [a ->].
  destruct (max_nonempty (map_nonempty Word.x1 Hne)) as [b ->].
  destruct (min_nonempty (map_nonempty Word.top Hne)) as [c ->].
  destruct (max_nonempty (map_nonempty Word.bottom Hne)) as [d ->].
  destruct (min_nonempty (map_nonempty Word.x0 Hw)) as [e ->].
  cbn [bind].
  match goal with
  | |- context [line_dicts isupper page_num words ?p rest] =>
      destruct (IH p Hw Hrest) as [ds ->]
  end.
  cbn [bind]. eauto.
Qed.

Lemma extract_lines_total isupper words page_num :
  exists extracted, extract_lines isupper words page_num = Ok extracted.
Proof.
  unfold extract_lines. destruct words as [|w words]; [eauto|].
  apply line_dicts_total; [discriminate|apply group_words_nonempty].
Qed.

(** ** extract_lines: the lines and their words *)

Lemma line_dict_inv isupper page_num words prev line d :
  line_dict isupper page_num words prev line = Ok d ->
  Line.page d = page_num
  /\ Line.font_names d = map fontname_of line
  /\ Line.font_sizes d = map size_of line
  /\ Line.is_boldish d = existsb boldish (map fontname_of line).
Proof.
  unfold line_dict.
  destruct (Py.min (map Word.x0 line)); [|discriminate]; cbn [bind].
  destruct (Py.max (map Word.x1 line)); [|discriminate]; cbn [bind].
  destruct (Py.min (map Word.top line)); [|discriminate]; cbn [bind].
  destruct (Py.max (map Word.bottom line)); [|discriminate]; cbn [bind].
  destruct (Py.min (map Word.x0 words)); [|discriminate]; cbn [bind].
  intros H. inversion H; subst d; clear H. simpl. auto.
Qed.

(** Every line [extract_lines] returns is the [line_dict] of a group of
    words. *)
Lemma line_dicts_In isupper page_num words groups : forall prev ds d,
  line_dicts isupper page_num words prev groups = Ok ds ->
  In d ds ->
  exists line prev',
    In line groups /\ line_dict isupper page_num words prev' line = Ok d.
Proof.
  induction groups as [|g rest IH]; intros prev ds d H Hin; simpl in H.
  - inversion H; subst. contradiction.
  - destruct (line_dict isupper page_num words prev g) as [d0|] eqn:E0;
      [|discriminate].
    cbn [bind] in H.
    destruct (line_dicts isupper page_num words _ rest) as [ds0|] eqn:E1;
      [|discriminate].
    cbn [bind] in H. inversion H; subst ds; clear H.
    destruct Hin as [<-|Hin].
    + exists g, prev. split; [left; reflexivity|exact E0].
    + destruct (IH _ _ _ E1 Hin) as (line & prev' & Hl & Hd).
      exists line, prev'. split; [right; exact Hl|exact Hd].
Qed.

Lemma boldish_iff fn :
  boldish fn = true <->
  Str.contains (lit "Bold") fn = true \/ Str.contains (lit "bold") fn = true
  \/ Str.contains (lit "Black") fn = true.
Proof.
  unfold boldish. rewrite !orb_true_iff. tauto.
Qed.

(** C7, as the claim states it, fails: the font name ARIAL-BOLD holds
    "bold" when the case of the letters is ignored, and its line is not
    boldish. *)
Lemma upper_case_bold_is_not_boldish :
  Str.contains (lit "bold") (ascii_lower (lit "ARIAL-BOLD")) = true
  /\ exists l,
      extract_lines ascii_isupper caps_page 1 = Ok [l]
      /\ Line.font_names l = [lit "ARIAL-BOLD"]
      /\ Line.is_boldish l = false.
Proof.
  split; [vm_compute; reflexivity|].
  eexists. split; [vm_compute; reflexivity|].
  split; reflexivity.
Qed.

(** C7, amended. Every extracted line is made of a group of words of the
    page, its font names are theirs, and it is boldish exactly when the font
    name of one of them holds "Bold", "bold" or "Black", in this very
    case. *)
Theorem is_boldish_spec (isupper : str -> bool) (words : list Word.t)
        (page_num : Z) (extracted : list Line.t) (l : Line.t) :
  extract_lines isupper words page_num = Ok extracted ->
  In l extracted ->
  exists line_words,
    In line_words (group_words words)
    /\ Line.font_names l = map fontname_of line_words
    /\ (Line.is_boldish l = true <->
        exists w, In w line_words
                  /\ (Str.contains (lit "Bold") (fontname_of w) = true
                      \/ Str.contains (lit "bold") (fontname_of w) = true
                      \/ Str.contains (lit "Black") (fontname_of w) = true)).
Proof.
  intros H Hin. unfold extract_lines in H.
  destruct words as [|w0 words'].
  { inversion H; subst. contradiction. }
  destruct (line_dicts_In _ _ _ _ _ _ H Hin) as (g & prev' & Hg & Hd).
  apply line_dict_inv in Hd. destruct Hd as (_ & Hn & _ & Hb).
  exists g. repeat split; auto.
  - rewrite Hb. intros Hex. apply existsb_exists in Hex.
    destruct Hex as (fn & Hfn & Hbold).
    apply in_map_iff in Hfn. destruct Hfn as (w & <- & Hw).
    exists w. split; [exact Hw|]. now apply boldish_iff.
  - intros (w & Hw & Hbold). rewrite Hb.
    apply existsb_exists. exists (fontname_of w).
    split; [now apply in_map|now apply boldish_iff].
Qed.

Lemma is_boldish_spec_witness :
  exists line_words,
    In line_words (group_words intro_page)
    /\ Line.font_names intro_line = map fontname_of line_words
    /\ (Line.is_boldish intro_line = true <->
        exists w, In w line_words
                  /\ (Str.contains (lit "Bold") (fontname_of w) = true
                      \/ Str.contains (lit "bold") (fontname_of w) = true
                      \/ Str.contains (lit "Black") (fontname_of w) = true)).
Proof.
  apply (@is_boldish_spec ascii_isupper intro_page 1 [intro_line] intro_line).
  - vm_compute. reflexivity.
  - left. reflexivity.
Defined.

(** ** detect_title: the best candidate of page 1 *)

(** C4, as the claim states it, fails: the only line of [unsized_pdf] has
    the score -19.75, is the only candidate, and its text is the title all
    the same, by the last fallback. *)
Lemma non_positive_best_is_the_title :
  (l <- extract_lines ascii_isupper unsized_page 1 ;; score_lines l)
  = Ok [unsized_scored]
  /\ candidates [unsized_scored] = Ok [unsized_scored]
  /\ title_from_metadata ascii_lower None [unsized_scored] = Ok None
  /\ Py.max_by Scored.score (filter on_page1 [unsized_scored])
     = Ok unsized_scored
  /\ Py.gtb (Scored.score unsized_scored) 0 = false
  /\ detect_title ascii_lower None [unsized_scored] [unsized_scored]
     = Ok (Some (collapse (Line.text unsized_scored))).
Proof.
  repeat split; vm_compute; reflexivity.
Qed.

(** C4, amended. When the metadata path fails and [best] is the
    highest-scoring candidate of page 1: path 2 gives the collapsed text of
    [best] exactly when its score is strictly positive, and [detect_title]
    returns it then; otherwise path 2 gives nothing and [detect_title]
    returns what the later fallbacks give. *)
Theorem page1_best_title (lower : str -> str)
        (metadata_title : option meta_value)
        (scored cands : list Scored.t) (best : Scored.t) :
  title_from_metadata lower metadata_title scored = Ok None ->
  Py.max_by Scored.score (filter on_page1 cands) = Ok best ->
  (forall t, title_from_page1_best cands = Ok (Some t) <->
             Py.gtb (Scored.score best) 0 = true
             /\ t = collapse (Line.text best))
  /\ (Py.gtb (Scored.score best) 0 = true ->
      detect_title lower metadata_title scored cands
      = Ok (Some (collapse (Line.text best))))
  /\ (Py.gtb (Scored.score best) 0 = false ->
      title_from_page1_best cands = Ok None
      /\ detect_title lower metadata_title scored cands
         = title_fallbacks scored cands).
Proof.
  intros Hmeta Hbest.
  assert (H2 : title_from_page1_best cands
               = Ok (if Py.gtb (Scored.score best) 0
                     then Some (collapse (Line.text best)) else None)).
  { unfold title_from_page1_best.
    destruct (filter on_page1 cands) as [|c page1]; [discriminate|].
    rewrite Hbest. cbn [bind].
    now destruct (Py.gtb (Scored.score best) 0). }
  unfold detect_title. rewrite Hmeta, H2. cbn [bind].
  destruct (Py.gtb (Scored.score best) 0).
  - split; [|split; [reflexivity|discriminate]].
    intros t. split.
    + intros E. inversion E. auto.
    + intros [_ ->]. reflexivity.
  - split; [|split; [discriminate|auto]].
    intros t. split; [discriminate|intros [? _]; discriminate].
Qed.

Lemma page1_best_title_witness :
  (forall t, title_from_page1_best three_scored = Ok (Some t) <->
             Py.gtb 3 0 = true /\ t = lit "Background")
  /\ (Py.gtb 3 0 = true ->
      detect_title ascii_lower None three_scored three_scored
      = Ok (Some (lit "Background")))
  /\ (Py.gtb 3 0 = false ->
      title_from_page1_best three_scored = Ok None
      /\ detect_title ascii_lower None three_scored three_scored
         = title_fallbacks three_scored three_scored).
Proof.
  apply (@page1_best_title ascii_lower None three_scored three_scored
           (mk_scored (mk_line 1 "Background" 10 72 150 120 130 10 0 false) 3));
    vm_compute; reflexivity.
Defined.

(** ** drop_repeating_headers *)

(** C6. The filter returns its lines as they are: the header "ACME Report"
    of [report_lines] is on all three pages within 10 points, and its three
    lines are still there after the filter. *)
Theorem headers_not_dropped :
  (forall lines, drop_repeating_headers lines = lines)
  /\ map Line.page (filter (spec_repeats report_lines) report_lines)
     = [1; 2; 3]%Z
  /\ filter (spec_repeats report_lines) (drop_repeating_headers report_lines)
     = filter (spec_repeats report_lines) report_lines.
Proof.
  repeat split; vm_compute; reflexivity.
Qed.

(** ** The theorems at sample inputs *)

Lemma candidate_selection_witness :
  scored_threshold three_scored = Ok (3 + 2)%float
  /\ exists cands,
      candidates three_scored = Ok cands
      /\ forall l, In l cands <->
                   In l three_scored
                   /\ Py.geb (Scored.score l) (3 + 2) = true.
Proof.
  apply (proj2 (candidate_selection three_scored) 3%float 2%float).
  - discriminate.
  - vm_compute. reflexivity.
  - vm_compute. reflexivity.
Defined.

Lemma repair_of_H3_H2_H1_witness :
  exists outline,
    assign_levels small_first = Ok outline
    /\ outline
       = demote_isolated_h3 []
           [ {| Entry.level := lit "H3"; Entry.text := lit "Scope";
                Entry.page := 1 |};
             {| Entry.level := lit "H2"; Entry.text := lit "Methods";
                Entry.page := 1 |};
             {| Entry.level := lit "H1"; Entry.text := lit "Results";
                Entry.page := 2 |} ]
    /\ map Entry.level outline = [lit "H2"; lit "H2"; lit "H1"]
    /\ map Entry.text outline = [lit "Scope"; lit "Methods"; lit "Results"]
    /\ map Entry.page outline = [1; 1; 2]%Z.
Proof.
  apply (@repair_of_H3_H2_H1 small_first
           [ {| Entry.level := lit "H3"; Entry.text := lit "Scope";
                Entry.page := 1 |};
             {| Entry.level := lit "H2"; Entry.text := lit "Methods";
                Entry.page := 1 |};
             {| Entry.level := lit "H1"; Entry.text := lit "Results";
                Entry.page := 2 |} ]);
    vm_compute; reflexivity.
Defined.

Lemma empty_pdf_witness :
  (pages_lines ascii_isupper 1 (pages blank_pdf) = Ok []
   /\ main_result ascii_lower ascii_isupper blank_pdf
      = {| title := None; outline := [] |}
   /\ process_pdf ascii_lower ascii_isupper blank_pdf
      = Ok {| title := None; outline := [] |})
  /\ (pages_lines ascii_isupper 1 (pages numbered_blank_pdf) = Ok []
      /\ main_result ascii_lower ascii_isupper numbered_blank_pdf
         = {| title := None; outline := [] |}
      /\ process_pdf ascii_lower ascii_isupper numbered_blank_pdf
         = Raise AttributeError).
Proof.
  split.
  - split.
    + apply (proj1 (empty_pdf ascii_lower ascii_isupper blank_pdf)).
      repeat constructor.
    + apply (proj2 (empty_pdf ascii_lower ascii_isupper blank_pdf)).
      vm_compute. reflexivity.
  - split.
    + apply (proj1 (empty_pdf ascii_lower ascii_isupper numbered_blank_pdf)).
      repeat constructor.
    + apply (proj2 (empty_pdf ascii_lower ascii_isupper numbered_blank_pdf)).
      vm_compute. reflexivity.
Defined.

Lemma score_lines_order_independent_witness :
  (exists f : Line.t -> float,
      score_lines two_lines
      = Ok (map (fun l => {| Scored.line := l; Scored.score := f l |})
                two_lines)
      /\ score_lines two_lines_swapped
         = Ok (map (fun l => {| Scored.line := l; Scored.score := f l |})
                   two_lines_swapped))
  \/ (exists e, score_lines two_lines = Raise e
                /\ score_lines two_lines_swapped = Raise e).
Proof.
  apply (@score_lines_order_independent two_lines two_lines_swapped).
  apply perm_swap.
Defined.

(** The scores of [two_lines] in the two orders. *)
Example score_lines_two_orders :
  (s <- score_lines two_lines ;; Ok (map Scored.score s))
  = (s <- score_lines two_lines_swapped ;; Ok (rev (map Scored.score s))).
Proof. vm_compute. reflexivity. Qed.

Lemma assign_levels_outline_witness :
  (Forall (fun c : Scored.t => is_finite (Line.top c) = true) small_first ->
   exists outline, assign_levels small_first = Ok outline)
  /\ (forall outline,
        assign_levels small_first = Ok outline ->
        outline <> []
        /\ Forall (fun o => Entry.level o = lit "H1"
                            \/ Entry.level o = lit "H2"
                            \/ Entry.level o = lit "H3") outline
        /\ Exists (fun o => Entry.level o = lit "H1") outline).
Proof.
  apply (@assign_levels_outline small_first). discriminate.
Defined.

(** * Further properties of the program *)

(** ** Strings: [split], [join] and the collapsing of whitespace *)

Lemma split_aux_tokens s : forall cur,
  Forall (fun c => Str.isspace c = false) cur ->
  Forall token (Str.split_aux cur s).
Proof.
  assert (Hrev : forall cur : str,
             cur <> [] -> Forall (fun c => Str.isspace c = false) cur ->
             token (rev cur)).
  { intros cur Hne Hc. split.
    - intros E. apply Hne. apply (f_equal (@rev N)) in E.
      now rewrite rev_involutive in E.
    - now apply Forall_rev. }
  induction s as [|c s IH]; intros cur Hcur; simpl.
  - destruct cur; [constructor|].
    constructor; [apply Hrev; [discriminate|exact Hcur]|constructor].
  - destruct (Str.isspace c) eqn:Ec.
    + destruct cur as [|x cur].
      * apply IH. constructor.
      * constructor; [apply Hrev; [discriminate|exact Hcur]|].
        apply IH. constructor.
    + apply IH. constructor; assumption.
Qed.

Lemma split_tokens s : Forall token (Str.split s).
Proof. apply split_aux_tokens. constructor. Qed.

Lemma split_aux_word t : forall cur rest,
  Forall (fun c => Str.isspace c = false) t ->
  Str.split_aux cur (t ++ rest) = Str.split_aux (rev t ++ cur) rest.
Proof.
  induction t as [|c t IH]; intros cur rest Ht; simpl; [reflexivity|].
  inversion Ht as [|? ? Hc Ht']; subst.
  rewrite Hc, IH by assumption. now rewrite <- app_assoc.
Qed.

Lemma split_aux_end cur :
  cur <> [] -> Str.split_aux cur [] = [rev cur].
Proof. destruct cur; [congruence|reflexivity]. Qed.

(** Joining tokens with one space and splitting again gives the tokens. *)
Lemma split_join tokens :
  Forall token tokens -> Str.split (Str.join (lit " ") tokens) = tokens.
Proof.
  unfold Str.split.
  induction tokens as [|t ts IH]; intros H; [reflexivity|].
  inversion H as [|? ? [Hne Ht] Hts]; subst.
  assert (Hr : rev t <> []).
  { intros E. apply Hne. apply (f_equal (@rev N)) in E.
    now rewrite rev_involutive in E. }
  destruct ts as [|t2 ts].
  - simpl. pose proof (split_aux_word [] [] Ht) as E.
    rewrite !app_nil_r in E. rewrite E, split_aux_end by assumption.
    now rewrite rev_involutive.
  - change (Str.join (lit " ") (t :: t2 :: ts))
      with (t ++ lit " " ++ Str.join (lit " ") (t2 :: ts)).
    rewrite split_aux_word by assumption. rewrite app_nil_r.
    change (lit " " ++ Str.join (lit " ") (t2 :: ts))
      with (32%N :: Str.join (lit " ") (t2 :: ts)).
    cbn [Str.split_aux].
    change (Str.isspace 32) with true. cbv iota.
    destruct (rev t) as [|x r] eqn:Er; [congruence|].
    rewrite <- Er, rev_involutive. f_equal. now apply IH.
Qed.

(** Collapsing whitespace keeps the tokens of a text, and collapsing a
    collapsed text changes nothing. *)
Lemma collapse_idempotent (s : str) :
  Str.split (collapse s) = Str.split s
  /\ collapse (collapse s) = collapse s.
Proof.
  assert (H : Str.split (collapse s) = Str.split s).
  { unfold collapse. apply split_join, split_tokens. }
  split; [exact H|]. unfold collapse at 1. now rewrite H.
Qed.

(** ** [statistics]: what can be raised *)

Lemma median_total (data : list float) :
  data <> [] -> exists m, statistics.median data = Ok m.
Proof.
  intros Hne. unfold statistics.median.
  pose proof (sorted_length ltb data) as Hlen.
  set (sd := Py.sorted ltb data) in *.
  assert (Hpos : 0 < length sd).
  { rewrite Hlen. destruct data; [congruence|simpl; lia]. }
  destruct (length sd) as [|n] eqn:En; [lia|]. rewrite <- En.
  destruct (Nat.eqb (Nat.modulo (length sd) 2) 1) eqn:Em.
  - apply index_in_range. apply Nat.div_lt; lia.
  - apply Nat.eqb_neq in Em.
    assert (Hdiv : Nat.div (length sd) 2 < length sd)
      by (apply Nat.div_lt; lia).
    destruct (@index_in_range _ sd (Nat.div (length sd) 2 - 1)) as [a ->];
      [lia|].
    destruct (@index_in_range _ sd (Nat.div (length sd) 2)) as [b ->];
      [lia|].
    simpl. eauto.
Qed.

Lemma int_truediv_raises a b e :
  Py.int_truediv a b = Raise e -> e = OverflowError.
Proof.
  unfold Py.int_truediv. destruct a; [discriminate| |];
    destruct (SFdiv_core_binary _ _ _ _ _ _) as [[q ex] l];
    destruct (binary_round_aux _ _ _ _ _ _); intros H; inversion H;
    reflexivity.
Qed.

Lemma stdev_raises data e :
  2 <= length data ->
  statistics.stdev data = Raise e ->
  e = AttributeError \/ e = OverflowError.
Proof.
  intros Hn. unfold statistics.stdev.
  destruct (Nat.ltb_spec (length data) 2); [lia|].
  destruct (statistics.exact_ratios data).
  - unfold statistics.float_sqrt_of_frac.
    destruct (Z.leb 0 _); intros E; apply int_truediv_raises in E; auto.
  - intros E. inversion E. auto.
Qed.

Lemma mean_raises data e :
  data <> [] -> statistics.mean data = Raise e -> e = OverflowError.
Proof.
  intros Hne. unfold statistics.mean. destruct data; [congruence|].
  destruct (statistics.exact_ratios _).
  - apply int_truediv_raises.
  - discriminate.
Qed.

(** ** score_lines and scored_threshold: the guards *)

(** X4.  For at most one line with a positive font size, [score_lines] does not
    call [statistics.stdev] and raises nothing; otherwise what it raises
    comes from [statistics.stdev] on the font sizes: an [AttributeError]
    for an infinite size, an [OverflowError] for a deviation too large for
    a float.  The lines it returns are its lines, in their order. *)
Theorem score_lines_guards (lines : list Line.t) :
  (length (filter positive (map Line.avg_font_size lines)) <= 1 ->
   exists scored, score_lines lines = Ok scored)
  /\ (forall e, score_lines lines = Raise e ->
                e = AttributeError \/ e = OverflowError)
  /\ (forall scored, score_lines lines = Ok scored ->
                     map Scored.line scored = lines).
Proof.
  destruct lines as [|l0 lines'].
  { simpl. repeat split; eauto; try discriminate.
    intros scored H. inversion H. reflexivity. }
  rewrite (score_lines_stats (lines := l0 :: lines')) by discriminate.
  cbv zeta.
  set (sizes := filter positive (map Line.avg_font_size (l0 :: lines'))).
  set (fs := match sizes with [] => _ | _ => sizes end).
  assert (Hfs : fs <> []) by (subst fs; destruct sizes; discriminate).
  assert (Hlen : 1 < length fs -> length fs = length sizes).
  { subst fs. destruct sizes; simpl; [lia|reflexivity]. }
  destruct (median_total Hfs) as [ms ->]. cbn [bind].
  assert (Hml : exists ml,
             match filter positive (map Line.leading (l0 :: lines')) with
             | [] => Ok 0%float
             | _ => statistics.median
                      (filter positive (map Line.leading (l0 :: lines')))
             end = Ok ml).
  { destruct (filter positive (map Line.leading (l0 :: lines'))) eqn:E;
      [eauto|].
    apply median_total. discriminate. }
  destruct Hml as [ml Hml].
  assert (Hok : forall sd,
             exists scored,
               (median_leading <-
                match filter positive (map Line.leading (l0 :: lines')) with
                | [] => Ok 0%float
                | _ => statistics.median
                         (filter positive (map Line.leading (l0 :: lines')))
                end ;;
                Ok (map (fun l =>
                           {| Scored.line := l;
                              Scored.score :=
                                line_score ms sd median_leading l |})
                        (l0 :: lines'))) = Ok scored
               /\ map Scored.line scored = l0 :: lines').
  { intros sd. rewrite Hml. cbn [bind]. eexists. split; [reflexivity|].
    rewrite map_map. simpl. f_equal. apply map_id. }
  destruct (Nat.ltb 1 (length fs)) eqn:E1.
  - apply Nat.ltb_lt in E1.
    destruct (statistics.stdev fs) as [sd|e0] eqn:Esd; cbn [bind].
    + destruct (Hok sd) as (scored & -> & Hl).
      split; [eauto|]. split; [discriminate|].
      intros scored' H. injection H as <-. exact Hl.
    + split; [|split; [|discriminate]].
      * intros Hle. rewrite (Hlen E1) in E1. lia.
      * intros e H. injection H as <-.
        apply (stdev_raises fs); [lia|exact Esd].
  - cbn [bind]. destruct (Hok 1%float) as (scored & -> & Hl).
    split; [eauto|]. split; [discriminate|].
    intros scored' H. injection H as <-. exact Hl.
Qed.

(** ** detect_title: what it returns *)

Lemma max_by_In (A : Type) (key : A -> float) (l : list A) b :
  Py.max_by key l = Ok b -> In b l.
Proof.
  destruct l as [|x l]; [discriminate|]. simpl. intros H. injection H as <-.
  assert (G : forall l0 m, In (fold_left
                                  (fun m y => if (key m <? key y)%float
                                              then y else m) l0 m)
                                (m :: l0)).
  { induction l0 as [|y l0 IH]; intros m; simpl; [auto|].
    destruct (key m <? key y)%float.
    - right. apply IH.
    - destruct (IH m) as [E|E]; auto. }
  apply G.
Qed.

Lemma first_centered_total page1_lines page_width ls :
  page1_lines <> [] ->
  exists r,
    first_centered page1_lines page_width ls = Ok r
    /\ (r = None \/ exists l, In l ls /\ r = Some (collapse (Line.text l))).
Proof.
  intros Hne.
  destruct (@median_total
              (map (fun x : Scored.t => Line.avg_font_size x) page1_lines))
    as [med Hmed].
  { destruct page1_lines; [congruence|discriminate]. }
  induction ls as [|l rest IH]; simpl.
  - eauto.
  - rewrite Hmed. cbn [bind].
    destruct (_ && _).
    + eexists. split; [reflexivity|]. right. exists l. auto.
    + destruct IH as (r & -> & [->|(l' & Hin & ->)]).
      * eauto.
      * eexists. split; [reflexivity|]. right. exists l'. auto.
Qed.

(** The paths of [detect_title], one after the other, when the title of
    the metadata could be stripped to [m]. *)
Lemma detect_title_cases (lower : str -> str)
      (metadata_title : option meta_value) (scored cands : list Scored.t)
      (m : str) :
  stripped_title metadata_title = Ok m ->
  exists t,
    detect_title lower metadata_title scored cands = Ok t
    /\ (t = None -> cands = [])
    /\ (forall x, t = Some x ->
          collapse x = x
          /\ ((m <> [] /\ x = collapse m)
              \/ (exists l, (In l scored \/ In l cands)
                            /\ x = collapse (Line.text l)))).
Proof.
  intros Em.
  assert (Hline : forall (l : Scored.t) x,
             (In l scored \/ In l cands) ->
             Some (collapse (Line.text l)) = Some x ->
             collapse x = x
             /\ ((m <> [] /\ x = collapse m)
                 \/ (exists l, (In l scored \/ In l cands)
                               /\ x = collapse (Line.text l)))).
  { intros l x Hin E. injection E as <-.
    split; [apply collapse_idempotent|]. right. exists l. auto. }
  unfold detect_title, title_from_metadata. rewrite Em. cbn [bind].
  assert (H1 : exists t1,
             match m with
             | [] => Ok None
             | _ :: _ =>
                 if existsb
                      (fun l : Scored.t =>
                         Str.contains (lower m) (lower (Line.text l)))
                      (firstn 20 scored)
                 then Ok (Some (collapse m))
                 else Ok None
             end = Ok t1
             /\ (t1 = None \/ (m <> [] /\ t1 = Some (collapse m)))).
  { destruct m as [|c m']; [eauto|].
    destruct (existsb _ _); eexists; (split; [reflexivity|]); auto.
    right. split; [discriminate|reflexivity]. }
  destruct H1 as (t1 & -> & Ht1). cbn [bind].
  destruct Ht1 as [->|[Hm ->]].
  2:{ eexists. split; [reflexivity|]. split; [discriminate|].
      intros x Hx. injection Hx as <-.
      split; [apply collapse_idempotent|]. left. auto. }
  assert (H2 : exists t2,
             title_from_page1_best cands = Ok t2
             /\ (t2 = None
                 \/ exists l, In l cands /\ t2 = Some (collapse (Line.text l)))).
  { unfold title_from_page1_best.
    destruct (filter on_page1 cands) as [|c page1] eqn:Ef; [eauto|].
    destruct (Py.max_by Scored.score (c :: page1)) as [best|] eqn:Eb;
      [|discriminate].
    cbn [bind]. apply max_by_In in Eb. rewrite <- Ef in Eb.
    apply filter_In in Eb as [Hin _].
    destruct (Py.gtb (Scored.score best) 0).
    - eexists. split; [reflexivity|]. right. exists best. auto.
    - eexists. split; [reflexivity|]. auto. }
  destruct H2 as (t2 & -> & Ht2). cbn [bind].
  destruct Ht2 as [->|(l & Hin & ->)].
  2:{ eexists. split; [reflexivity|]. split; [discriminate|].
      intros x Hx. apply (Hline l); auto. }
  unfold title_fallbacks.
  assert (H3 : exists t3,
             title_from_centered scored = Ok t3
             /\ (t3 = None
                 \/ exists l, In l scored /\ t3 = Some (collapse (Line.text l)))).
  { unfold title_from_centered.
    destruct (filter on_page1 scored) as [|c page1] eqn:Ef; [eauto|].
    destruct (@first_centered_total (c :: page1)
                (Py.max_or 600
                   (map (fun l : Scored.t => Line.x1 l) (c :: page1)))
                (c :: page1)) as (r & -> & Hr); [discriminate|].
    exists r. split; [reflexivity|].
    destruct Hr as [->|(l & Hin & ->)]; [auto|].
    right. exists l. split; [|reflexivity].
    rewrite <- Ef in Hin. now apply filter_In in Hin. }
  destruct H3 as (t3 & -> & Ht3). cbn [bind].
  destruct Ht3 as [->|(l & Hin & ->)].
  2:{ eexists. split; [reflexivity|]. split; [discriminate|].
      intros x Hx. apply (Hline l); auto. }
  exists (title_from_first_cand cands). split; [reflexivity|].
  destruct cands as [|c cands']; simpl.
  - split; [reflexivity|discriminate].
  - split; [discriminate|]. intros x Hx. apply (Hline c); simpl; auto.
Qed.

Lemma detect_title_none (lower : str -> str)
      (metadata_title : option meta_value) (scored cands : list Scored.t) :
  detect_title lower metadata_title scored cands = Ok None -> cands = [].
Proof.
  intros H. destruct (stripped_title metadata_title) as [m|e] eqn:Em.
  - destruct (@detect_title_cases lower metadata_title scored cands m Em)
      as (t & Et & Hn & _).
    rewrite Et in H. injection H as ->. now apply Hn.
  - unfold detect_title, title_from_metadata in H. rewrite Em in H.
    discriminate.
Qed.

(** X7.  [detect_title] raises for one kind of document only: a title of
    the metadata that is a true object and no string has no [strip], and
    the [AttributeError] is raised whatever the lines are.  For every other
    document it returns: the title is in collapsed form and is the
    collapsed, stripped title of the metadata or the collapsed text of a
    scored line or of a candidate, and there is no title only when there is
    no candidate. *)
Theorem detect_title_outcome (lower : str -> str)
        (metadata_title : option meta_value) (scored cands : list Scored.t) :
  match metadata_title with
  | Some (MetaObj true) =>
      detect_title lower metadata_title scored cands = Raise AttributeError
  | _ =>
      exists t,
        detect_title lower metadata_title scored cands = Ok t
        /\ (t = None -> cands = [])
        /\ (forall x, t = Some x ->
              collapse x = x
              /\ ((exists mt, metadata_title = Some (MetaStr mt)
                              /\ x = collapse (Str.strip mt))
                  \/ (exists l, (In l scored \/ In l cands)
                                /\ x = collapse (Line.text l))))
  end.
Proof.
  assert (Hfalsy : forall mt,
             stripped_title mt = Ok [] ->
             exists t,
               detect_title lower mt scored cands = Ok t
               /\ (t = None -> cands = [])
               /\ (forall x, t = Some x ->
                     collapse x = x
                     /\ ((exists s, mt = Some (MetaStr s)
                                    /\ x = collapse (Str.strip s))
                         \/ (exists l, (In l scored \/ In l cands)
                                       /\ x = collapse (Line.text l))))).
  { intros mt E.
    destruct (@detect_title_cases lower mt scored cands [] E)
      as (t & Et & Hn & Hx).
    exists t. split; [exact Et|]. split; [exact Hn|].
    intros x Ex. destruct (Hx x Ex) as [Hc [[Hm _]|Hl]];
      [congruence|auto]. }
  destruct metadata_title as [[[|c s]|[|]]|].
  - now apply Hfalsy.
  - destruct (@detect_title_cases lower (Some (MetaStr (c :: s))) scored
                cands (Str.strip (c :: s)) eq_refl) as (t & Et & Hn & Hx).
    exists t. split; [exact Et|]. split; [exact Hn|].
    intros x Ex. destruct (Hx x Ex) as [Hc [[_ ->]|Hl]]; [|auto].
    split; [exact Hc|]. left. exists (c :: s). auto.
  - reflexivity.
  - now apply Hfalsy.
  - now apply Hfalsy.
Qed.

(** ** assign_levels: the removal of duplicates *)

Lemma key_eqb_eq (a b : key) : key_eqb a b = true <-> a = b.
Proof.
  destruct a as [[t1 p1] y1], b as [[t2 p2] y2]. simpl.
  rewrite !andb_true_iff, str_eqb_eq, !Z.eqb_eq.
  split; [intros [[-> ->] ->]; reflexivity|].
  intros E. inversion E. auto.
Qed.

Lemma existsb_key k seen : existsb (key_eqb k) seen = true <-> In k seen.
Proof.
  rewrite existsb_exists. split.
  - intros (x & Hin & E). apply key_eqb_eq in E. now subst.
  - intros H. exists k. split; [exact H|]. now apply key_eqb_eq.
Qed.

(** The loop keeps, in their order, the candidates whose key it has not
    seen, and emits one entry for each. *)
Lemma emit_kept th cands : forall outline seen out,
  emit th cands outline seen = Ok out ->
  exists kept keys more,
    out = outline ++ more
    /\ subseq kept cands
    /\ Forall2 (from_cand th) kept more
    /\ Forall2 (fun c k => key_of c = Ok k) kept keys
    /\ NoDup keys
    /\ (forall k, In k keys -> ~ In k seen)
    /\ (forall c, In c cands ->
                  exists k, key_of c = Ok k /\ (In k seen \/ In k keys)).
Proof.
  induction cands as [|l rest IH]; intros outline seen out H; simpl in H.
  - injection H as <-. exists [], [], []. rewrite app_nil_r.
    repeat split; try constructor; try contradiction.
  - destruct (level_of th l) as [lv|] eqn:El; [|discriminate].
    cbn [bind] in H.
    destruct (Py.round (Line.top l)) as [y|] eqn:Ey; [|discriminate].
    cbn [bind] in H.
    set (k := (Str.strip (Line.text l), Line.page l, y)) in *.
    assert (Hk : key_of l = Ok k) by (unfold key_of; now rewrite Ey).
    destruct (existsb (key_eqb k) seen) eqn:Es.
    + apply existsb_key in Es.
      destruct (IH _ _ _ H) as (kept & keys & more & -> & Hs & Hf & Hks & Hnd
                                & Hfresh & Hcov).
      exists kept, keys, more. repeat split; auto.
      * now constructor.
      * intros c [<-|Hc]; [exists k; auto|auto].
    + assert (Hnew : ~ In k seen).
      { intros Hin. apply existsb_key in Hin. congruence. }
      destruct (IH _ _ _ H) as (kept & keys & more & -> & Hs & Hf & Hks & Hnd
                                & Hfresh & Hcov).
      eexists (l :: kept), (k :: keys), (_ :: more).
      rewrite <- app_assoc. simpl. repeat split.
      * now constructor.
      * constructor; [|exact Hf]. exists lv. repeat split; auto.
      * constructor; assumption.
      * constructor; [|exact Hnd]. intros Hin.
        apply (Hfresh _ Hin). left. reflexivity.
      * intros k' [<-|Hin]; [exact Hnew|].
        intros Hs'. apply (Hfresh _ Hin). right. exact Hs'.
      * intros c [<-|Hc]; [exists k; auto|].
        destruct (Hcov _ Hc) as (k' & Hk' & [[Ek|Hin]|Hin]);
          exists k'; subst; auto.
Qed.

Lemma Forall2_same_heading (R : Entry.t -> Entry.t -> Prop) l l' :
  (forall o o', R o o' -> same_heading o o') ->
  Forall2 R l l' ->
  map Entry.text l' = map Entry.text l /\ map Entry.page l' = map Entry.page l.
Proof.
  intros HR H. induction H as [|o o' l l' Ho _ [IHt IHp]]; [auto|].
  destruct (HR _ _ Ho) as [Et Ep]. simpl. now rewrite Et, Ep, IHt, IHp.
Qed.

Lemma promoted_same_heading o o' : promoted o o' -> same_heading o o'.
Proof. intros [->| ->]; split; reflexivity. Qed.

Lemma repaired_same_heading o o' : repaired o o' -> same_heading o o'.
Proof. intros [->|[_ ->]]; split; reflexivity. Qed.

(** The outline of [assign_levels], from the entries of the loop. *)
Lemma assign_levels_kept cands outline :
  cands <> [] ->
  assign_levels cands = Ok outline ->
  exists th kept keys emitted0,
    thresholds_of
      (Py.sorted ltb
         (dedup (map (fun l : Scored.t => Line.avg_font_size l) cands)))
    = Ok th
    /\ subseq kept cands
    /\ Forall2 (from_cand th) kept emitted0
    /\ Forall2 promoted emitted0 (guarantee_h1 emitted0)
    /\ Forall2 repaired (guarantee_h1 emitted0) outline
    /\ Forall2 (fun c k => key_of c = Ok k) kept keys
    /\ NoDup keys
    /\ (forall c, In c cands -> exists k, key_of c = Ok k /\ In k keys).
Proof.
  intros Hne H.
  destruct (assign_levels_inv Hne H)
    as (o0 & g & E & _ & _ & -> & _ & HR).
  unfold emitted in E.
  destruct (thresholds_of _) as [th|] eqn:Eth; [|discriminate].
  cbn [bind] in E.
  destruct (emit_kept _ _ _ _ E)
    as (kept & keys & more & -> & Hs & Hf & Hks & Hnd & _ & Hcov).
  simpl app in *.
  exists th, kept, keys, more. repeat split; auto.
  - apply guarantee_h1_spec.
  - intros c Hc. destruct (Hcov _ Hc) as (k & Hk & [[]|Hin]). eauto.
Qed.

(** X11.  Entries with the same stripped text, page and rounded top are emitted
    once: the outline has one entry for each kept candidate, in the order of
    the candidates, with its stripped text and its page; the kept candidates
    have pairwise different keys, and every candidate has the key of a kept
    one. *)
Theorem assign_levels_deduplicates (cands : list Scored.t)
        (outline : list Entry.t) :
  assign_levels cands = Ok outline ->
  exists kept keys,
    subseq kept cands
    /\ map Entry.text outline
       = map (fun c : Scored.t => Str.strip (Line.text c)) kept
    /\ map Entry.page outline = map (fun c : Scored.t => Line.page c) kept
    /\ Forall2 (fun c k => key_of c = Ok k) kept keys
    /\ NoDup keys
    /\ (forall c, In c cands -> exists k, key_of c = Ok k /\ In k keys).
Proof.
  intros H. destruct cands as [|c0 cands'].
  { injection H as <-. exists [], []. repeat split; try constructor.
    contradiction. }
  assert (Hne : c0 :: cands' <> []) by discriminate.
  destruct (assign_levels_kept Hne H)
    as (th & kept & keys & e0 & _ & Hs & Hf & Hp & Hr & Hks & Hnd & Hcov).
  exists kept, keys.
  destruct (Forall2_same_heading promoted_same_heading Hp) as [Et1 Ep1].
  destruct (Forall2_same_heading repaired_same_heading Hr) as [Et2 Ep2].
  assert (Hfrom : map Entry.text e0
                  = map (fun c : Scored.t => Str.strip (Line.text c)) kept
                  /\ map Entry.page e0
                     = map (fun c : Scored.t => Line.page c) kept).
  { clear - Hf. induction Hf as [|c o kept e0 (lv & _ & _ & Et & Ep) _ [It Ip]];
      [auto|]. simpl. now rewrite Et, Ep, It, Ip. }
  destruct Hfrom as [Et0 Ep0].
  repeat split; auto; congruence.
Qed.

(** ** assign_levels: the two repairs *)

Lemma has_level_true lv o : has_level lv o = true <-> Entry.level o = lv.
Proof. apply str_eqb_eq. Qed.

Lemma existsb_has_level lv l :
  existsb (has_level lv) l = true <-> Exists (fun o => Entry.level o = lv) l.
Proof.
  rewrite existsb_exists, Exists_exists.
  split; intros (o & Hin & Ho); exists o; split; auto;
    now apply has_level_true.
Qed.

(** With an H2 among the entries visited, the loop changes nothing more. *)
Lemma demote_after_h2 todo : forall done,
  existsb (has_level (lit "H2")) done = true ->
  demote_isolated_h3 done todo = done ++ todo.
Proof.
  induction todo as [|o rest IH]; intros done Hd; simpl.
  - now rewrite app_nil_r.
  - rewrite Hd, andb_false_r. rewrite IH.
    + now rewrite <- app_assoc.
    + rewrite existsb_app, Hd. reflexivity.
Qed.

(** The loop from the entries [done], none of them an H2, on. *)
Lemma demote_cases todo : forall done,
  existsb (has_level (lit "H2")) done = false ->
  demote_isolated_h3 done todo = done ++ todo
  \/ exists pre o post,
      todo = pre ++ o :: post
      /\ Forall (fun e => Entry.level e <> lit "H2"
                          /\ Entry.level e <> lit "H3") pre
      /\ Entry.level o = lit "H3"
      /\ demote_isolated_h3 done todo
         = done ++ pre ++ Entry.set_level o (lit "H2") :: post.
Proof.
  induction todo as [|o rest IH]; intros done Hd; simpl.
  - left. now rewrite app_nil_r.
  - rewrite Hd. simpl negb. rewrite andb_true_r.
    destruct (has_level (lit "H3") o) eqn:E3.
    + right. exists [], o, rest. apply has_level_true in E3.
      repeat split; auto.
      rewrite demote_after_h2.
      * now rewrite <- app_assoc.
      * rewrite existsb_app. simpl. apply orb_true_r.
    + destruct (has_level (lit "H2") o) eqn:E2.
      * left. rewrite demote_after_h2.
        -- now rewrite <- app_assoc.
        -- rewrite existsb_app. simpl. rewrite E2. apply orb_true_r.
      * destruct (IH (done ++ [o])) as [E|(pre & x & post & -> & Hp & Hx & E)].
        -- rewrite existsb_app, Hd. simpl. now rewrite E2.
        -- left. rewrite E. now rewrite <- app_assoc.
        -- right. exists (o :: pre), x, post. repeat split; auto.
           ++ constructor; [|exact Hp].
              split; intros Eo; apply has_level_true in Eo; congruence.
           ++ rewrite E. now rewrite <- app_assoc.
Qed.

(** X12.  The demotion changes at most one entry: the first H3, when no H2 or H3
    comes before it.  A later H3 stays an H3. *)
Theorem demote_isolated_h3_once (outline : list Entry.t) :
  demote_isolated_h3 [] outline = outline
  \/ exists pre o post,
      outline = pre ++ o :: post
      /\ Forall (fun e => Entry.level e <> lit "H2"
                          /\ Entry.level e <> lit "H3") pre
      /\ Entry.level o = lit "H3"
      /\ demote_isolated_h3 [] outline
         = pre ++ Entry.set_level o (lit "H2") :: post.
Proof.
  destruct (demote_cases outline [] eq_refl) as [E|H];
    [left; exact E|right; exact H].
Qed.

Lemma demote_h3_after_h2 todo : forall done,
  h3_after_h2 done -> h3_after_h2 (demote_isolated_h3 done todo).
Proof.
  induction todo as [|o rest IH]; intros done Hd; simpl; [exact Hd|].
  apply IH. intros i x Hi Hx.
  destruct (Nat.lt_ge_cases i (length done)) as [Hlt|Hge].
  - rewrite nth_error_app1 in Hi by assumption.
    rewrite firstn_app.
    replace (i - length done) with 0 by lia.
    rewrite firstn_O, app_nil_r. now apply (Hd i x).
  - rewrite nth_error_app2 in Hi by assumption.
    destruct (i - length done) as [|n] eqn:En.
    2:{ simpl in Hi. destruct n; discriminate. }
    assert (i = length done) by lia; subst i.
    rewrite firstn_app, Nat.sub_diag, firstn_O, app_nil_r, firstn_all.
    simpl in Hi. injection Hi as Hi.
    destruct (has_level (lit "H3") o) eqn:E3; simpl in Hi.
    + destruct (existsb (has_level (lit "H2")) done) eqn:E2; simpl in Hi.
      * now apply existsb_has_level.
      * subst x. discriminate.
    + subst x. apply has_level_true in Hx. congruence.
Qed.

(** X13.  In an outline of [assign_levels] every H3 has an H2 before it. *)
Theorem assign_levels_h3_after_h2 (cands : list Scored.t)
        (outline : list Entry.t) :
  assign_levels cands = Ok outline ->
  forall i o,
    nth_error outline i = Some o ->
    Entry.level o = lit "H3" ->
    Exists (fun e => Entry.level e = lit "H2") (firstn i outline).
Proof.
  intros H. destruct cands as [|c0 cands'].
  { injection H as <-. intros [|i] o Hi; discriminate. }
  unfold assign_levels in H.
  destruct (emitted (c0 :: cands')) as [o0|]; [|discriminate].
  injection H as <-.
  apply demote_h3_after_h2. intros [|i] o Hi; discriminate.
Qed.

(** ** assign_levels: candidates of one font size *)

Lemma leb_refl_of_eqb (x : float) : (x =? x)%float = true -> (x <=? x)%float = true.
Proof.
  rewrite eqb_spec, leb_spec. unfold SFeqb, SFleb.
  destruct (SFcompare (Prim2SF x) (Prim2SF x)) as [[]|]; auto.
Qed.

Lemma dedup_one_size (s : float) (l : list float) :
  (s =? s)%float = true -> l <> [] -> Forall (fun x => x = s) l ->
  dedup l = [s].
Proof.
  intros Hs Hne H. induction H as [|x l Hx H IH]; [congruence|].
  subst x. simpl. destruct l as [|y l'].
  - reflexivity.
  - rewrite IH by discriminate. simpl. now rewrite Hs.
Qed.

Lemma level_of_one_size (s : float) (c : Scored.t) lv :
  (s =? s)%float = true ->
  Line.avg_font_size c = s ->
  level_of [s; s; s] c = Ok lv -> lv = 1%Z.
Proof.
  intros Hs Hc. unfold level_of, font_level, Py.index.
  cbn [nth_error bind].
  rewrite Hc. unfold Py.geb. rewrite (leb_refl_of_eqb Hs). cbn [bind].
  destruct (numbering_level (Line.text c)) as [[n|]|] eqn:En;
    [| |discriminate]; cbn [bind].
  - apply numbering_level_range in En.
    destruct (Z.eqb_spec n 0); [lia|].
    rewrite zmin_min. replace (Z.min 1 n) with 1%Z by lia.
    simpl. intros H. now injection H as <-.
  - simpl. intros H. now injection H as <-.
Qed.

(** X15.  Candidates that all have one and the same font size (no nan) are all
    H1: the thresholds are padded with that size. *)
Theorem one_size_all_H1 (cands : list Scored.t) (outline : list Entry.t)
        (s : float) :
  Forall (fun c : Scored.t => Line.avg_font_size c = s) cands ->
  (s =? s)%float = true ->
  assign_levels cands = Ok outline ->
  Forall (fun o => Entry.level o = lit "H1") outline.
Proof.
  intros Hall Hs H. destruct cands as [|c0 cands'].
  { injection H as <-. constructor. }
  assert (Hne : c0 :: cands' <> []) by discriminate.
  destruct (assign_levels_kept Hne H)
    as (th & kept & keys & e0 & Eth & Hsub & Hf & Hp & Hr & _).
  rewrite (@dedup_one_size s) in Eth; auto; [|discriminate|].
  2:{ apply Forall_map. exact Hall. }
  simpl in Eth. injection Eth as <-.
  assert (Hkept : Forall (fun c : Scored.t => Line.avg_font_size c = s) kept).
  { clear - Hsub Hall. induction Hsub; inversion Hall; subst; auto. }
  assert (He0 : Forall (fun o => Entry.level o = lit "H1") e0).
  { clear - Hf Hkept Hs.
    induction Hf as [|c o kept e0 (lv & El & Eo & _) _ IH]; [constructor|].
    inversion Hkept; subst. constructor; [|auto].
    apply level_of_one_size in El; auto. subst lv. exact Eo. }
  eapply Forall2_Forall; [|exact Hr|].
  2:{ eapply Forall2_Forall; [|exact Hp|exact He0].
      intros x y [->| ->] Hx; [exact Hx|reflexivity]. }
  intros x y [->|[E3 _]] Hx; [exact Hx|].
  simpl in Hx. rewrite Hx in E3. discriminate.
Qed.

(** ** extract_lines: the words of a page and its lines *)

Lemma insert_Permutation (A : Type) (lt : A -> A -> bool) x l :
  Permutation (Py.insert lt x l) (x :: l).
Proof.
  induction l as [|y l IH]; simpl; [auto|].
  destruct (lt y x); [|auto].
  eapply perm_trans; [apply perm_skip, IH|apply perm_swap].
Qed.

Lemma sorted_is_Permutation (A : Type) (lt : A -> A -> bool) l :
  Permutation (Py.sorted lt l) l.
Proof.
  induction l as [|x l IH]; simpl; [auto|].
  eapply perm_trans; [apply insert_Permutation|auto].
Qed.

Lemma group_step_words st w :
  concat (lines (group_step st w)) ++ current_line (group_step st w)
  = (concat (lines st) ++ current_line st) ++ [w].
Proof.
  unfold group_step. destruct (last_y st).
  - destruct (_ <=? _)%float; simpl.
    + now rewrite app_assoc.
    + rewrite concat_app. simpl. now rewrite app_nil_r.
  - simpl. now rewrite app_assoc.
Qed.

Lemma group_fold_words ws : forall st,
  concat (lines (fold_left group_step ws st))
  ++ current_line (fold_left group_step ws st)
  = (concat (lines st) ++ current_line st) ++ ws.
Proof.
  induction ws as [|w ws IH]; intros st; simpl.
  - now rewrite app_nil_r.
  - rewrite IH, group_step_words. now rewrite <- app_assoc.
Qed.

Lemma group_words_concat words :
  concat (group_words words) = Py.sorted word_lt words.
Proof.
  unfold group_words.
  pose proof (group_fold_words (Py.sorted word_lt words)
                {| lines := []; current_line := []; last_y := None |}) as E.
  simpl in E.
  set (st := fold_left group_step _ _) in *.
  destruct (current_line st) as [|w ws] eqn:Ec.
  - now rewrite app_nil_r in E.
  - rewrite concat_app. simpl. now rewrite app_nil_r.
Qed.

(** A line and the group of words it is made of. *)
Lemma line_dicts_groups isupper page_num words groups : forall prev ds,
  line_dicts isupper page_num words prev groups = Ok ds ->
  Forall2 (fun g d => Line.page d = page_num
                      /\ Line.font_names d = map fontname_of g
                      /\ Line.font_sizes d = map size_of g) groups ds.
Proof.
  induction groups as [|g rest IH]; intros prev ds H; simpl in H.
  - injection H as <-. constructor.
  - destruct (line_dict isupper page_num words prev g) as [d|] eqn:Ed;
      [|discriminate].
    cbn [bind] in H.
    destruct (line_dicts isupper page_num words _ rest) as [ds0|] eqn:Er;
      [|discriminate].
    cbn [bind] in H. injection H as <-.
    apply line_dict_inv in Ed. destruct Ed as (Hp & Hn & Hs & _).
    constructor; [auto|]. eapply IH; eauto.
Qed.

Lemma line_dict_leading isupper page_num words line d :
  line_dict isupper page_num words None line = Ok d ->
  Line.leading d = 0%float.
Proof.
  unfold line_dict.
  destruct (Py.min (map Word.x0 line)); [|discriminate]; cbn [bind].
  destruct (Py.max (map Word.x1 line)); [|discriminate]; cbn [bind].
  destruct (Py.min (map Word.top line)); [|discriminate]; cbn [bind].
  destruct (Py.max (map Word.bottom line)); [|discriminate]; cbn [bind].
  destruct (Py.min (map Word.x0 words)); [|discriminate]; cbn [bind].
  intros H. injection H as <-. reflexivity.
Qed.

(** X1.  [extract_lines] raises nothing.  It returns no line exactly for a page
    without words; every line has the number of the page, and the first
    line has the leading 0. *)
Theorem extract_lines_returns (isupper : str -> bool) (words : list Word.t)
        (page_num : Z) :
  exists extracted,
    extract_lines isupper words page_num = Ok extracted
    /\ (extracted = [] <-> words = [])
    /\ Forall (fun d => Line.page d = page_num) extracted
    /\ (forall d rest, extracted = d :: rest -> Line.leading d = 0%float).
Proof.
  destruct (extract_lines_total isupper words page_num) as [ds H].
  exists ds. split; [exact H|].
  unfold extract_lines in H. destruct words as [|w0 words'].
  { injection H as <-. repeat split; auto; discriminate. }
  pose proof (line_dicts_groups _ _ _ _ _ H) as HF.
  repeat split.
  - intros ->. inversion HF as [E|]; subst.
    pose proof (group_words_concat (w0 :: words')) as Ec.
    rewrite <- E in Ec. apply (f_equal (@length Word.t)) in Ec.
    rewrite sorted_length in Ec. discriminate.
  - discriminate.
  - clear - HF. induction HF as [|g d gs ds (Hp & _) _ IH]; auto.
  - intros d rest ->.
    destruct (group_words (w0 :: words')) as [|g gs]; simpl in H;
      [discriminate|].
    destruct (line_dict isupper page_num (w0 :: words') None g) as [d0|] eqn:Ed;
      [|discriminate].
    cbn [bind] in H.
    destruct (line_dicts _ _ _ _ gs); [|discriminate].
    cbn [bind] in H. injection H as <- <-.
    eapply line_dict_leading; eauto.
Qed.

(** X2.  Every word of the page is in exactly one line: the lines are made of
    consecutive groups of the words sorted by [(top, x0)], none of them
    empty, and carry the font names and sizes of their words. *)
Theorem extract_lines_partition (isupper : str -> bool) (words : list Word.t)
        (page_num : Z) (extracted : list Line.t) :
  extract_lines isupper words page_num = Ok extracted ->
  exists groups,
    concat groups = Py.sorted word_lt words
    /\ Permutation (concat groups) words
    /\ Forall (fun g => g <> []) groups
    /\ Forall2 (fun g d => Line.font_names d = map fontname_of g
                           /\ Line.font_sizes d = map size_of g)
               groups extracted.
Proof.
  intros H. unfold extract_lines in H. destruct words as [|w0 words'].
  { injection H as <-. exists []. repeat split; constructor. }
  exists (group_words (w0 :: words')).
  split; [apply group_words_concat|].
  split; [rewrite group_words_concat; apply sorted_is_Permutation|].
  split; [apply group_words_nonempty|].
  pose proof (line_dicts_groups _ _ _ _ _ H) as HF.
  clear - HF. induction HF as [|g d gs ds (_ & Hn & Hs) _ IH]; auto.
Qed.

(** ** process_pdf: where the outline comes from *)

Lemma subseq_refl (A : Type) (l : list A) : subseq l l.
Proof. induction l; [apply subseq_nil|apply subseq_keep; assumption]. Qed.

Lemma subseq_trans (A : Type) (l1 l2 l3 : list A) :
  subseq l1 l2 -> subseq l2 l3 -> subseq l1 l3.
Proof.
  intros H12 H23. revert l1 H12.
  induction H23 as [|x l2 l3 H IH|x l2 l3 H IH]; intros l1 H12.
  - exact H12.
  - apply subseq_skip. auto.
  - inversion H12; subst; [apply subseq_skip|apply subseq_keep]; auto.
Qed.

Lemma subseq_map (A B : Type) (f : A -> B) l1 l2 :
  subseq l1 l2 -> subseq (map f l1) (map f l2).
Proof.
  induction 1; simpl;
    [apply subseq_nil|apply subseq_skip|apply subseq_keep]; auto.
Qed.

Lemma subseq_Forall (A : Type) (P : A -> Prop) l1 l2 :
  subseq l1 l2 -> Forall P l2 -> Forall P l1.
Proof.
  induction 1; intros HP; auto; inversion HP; subst; auto.
Qed.

Lemma subseq_app (A : Type) (a b : list A) : subseq b (a ++ b).
Proof. induction a; simpl; [apply subseq_refl|apply subseq_skip; auto]. Qed.

Lemma filterM_subseq (A : Type) (p : A -> result bool) l r :
  Py.filterM p l = Ok r -> subseq r l.
Proof.
  revert r. induction l as [|a l IH]; intros r H; simpl in H.
  - injection H as <-. constructor.
  - destruct (p a) as [b|]; [|discriminate]. cbn [bind] in H.
    destruct (Py.filterM p l) as [r0|]; [|discriminate]. cbn [bind] in H.
    injection H as <-.
    destruct b; [apply subseq_keep|apply subseq_skip]; auto.
Qed.

Lemma score_lines_keeps_lines lines scored :
  score_lines lines = Ok scored -> map Scored.line scored = lines.
Proof.
  destruct lines as [|l0 lines'].
  { intros H. injection H as <-. reflexivity. }
  rewrite (score_lines_stats (lines := l0 :: lines')) by discriminate.
  cbv zeta.
  destruct (statistics.median _); [|discriminate]. cbn [bind].
  destruct (if Nat.ltb 1 _ then _ else _); [|discriminate]. cbn [bind].
  destruct (match filter positive (map Line.leading (l0 :: lines')) with
            | [] => _ | _ => _ end); [|discriminate].
  cbn [bind]. intros H. injection H as <-.
  simpl. f_equal. rewrite map_map. apply map_id.
Qed.

Lemma extract_lines_page isupper words page_num extracted :
  extract_lines isupper words page_num = Ok extracted ->
  Forall (fun d => Line.page d = page_num) extracted.
Proof.
  unfold extract_lines. destruct words as [|w0 words'].
  { intros H. injection H as <-. constructor. }
  intros H. pose proof (line_dicts_groups _ _ _ _ _ H) as HF.
  clear - HF. induction HF as [|g d gs ds (Hp & _) _ IH]; auto.
Qed.

Lemma pages_lines_page isupper pages : forall start all_lines,
  pages_lines isupper start pages = Ok all_lines ->
  Forall (fun d => (start <= Line.page d < start + Z.of_nat (length pages))%Z)
         all_lines.
Proof.
  induction pages as [|page rest IH]; intros start all_lines H; simpl in H.
  - injection H as <-. constructor.
  - destruct (extract_lines isupper page start) as [ls|] eqn:El;
      [|discriminate].
    cbn [bind] in H.
    destruct (pages_lines isupper (start + 1) rest) as [more|] eqn:Em;
      [|discriminate].
    cbn [bind] in H. injection H as <-.
    apply Forall_app. split.
    + apply extract_lines_page in El.
      eapply Forall_impl; [|exact El]. simpl. intros d ->.
      rewrite Zpos_P_of_succ_nat. lia.
    + apply IH in Em. eapply Forall_impl; [|exact Em].
      simpl. intros d Hd. rewrite Zpos_P_of_succ_nat. lia.
Qed.

(** X16.  The outline of a document is made of lines of the document: its
    entries are, in reading order, the stripped texts and the pages of some
    of the extracted lines, and every page of an entry is a page of the
    document, counted from 1. *)
Theorem process_pdf_outline (lower : str -> str) (isupper : str -> bool)
        (doc : pdf) (r : outline_result) :
  process_pdf lower isupper doc = Ok r ->
  exists all_lines kept,
    pages_lines isupper 1 (pages doc) = Ok all_lines
    /\ subseq kept all_lines
    /\ map Entry.text (outline r)
       = map (fun l => Str.strip (Line.text l)) kept
    /\ map Entry.page (outline r) = map Line.page kept
    /\ Forall (fun o => (1 <= Entry.page o <= Z.of_nat (length (pages doc)))%Z)
              (outline r).
Proof.
  unfold process_pdf. intros H.
  destruct (pages_lines isupper 1 (pages doc)) as [all_lines|] eqn:Ea;
    [|discriminate].
  cbn [bind] in H.
  unfold drop_repeating_headers, merge_wrapped_heading_lines in H.
  destruct (score_lines all_lines) as [scored|] eqn:Es; [|discriminate].
  cbn [bind] in H.
  destruct (candidates scored) as [cands|] eqn:Ec; [|discriminate].
  cbn [bind] in H.
  destruct (detect_title _ _ _ _) as [t|]; [|discriminate]. cbn [bind] in H.
  destruct (assign_levels cands) as [ol|] eqn:Eo; [|discriminate].
  cbn [bind] in H. injection H as <-. simpl outline.
  apply score_lines_keeps_lines in Es.
  apply filterM_subseq in Ec.
  assert (Hk : exists kept_c,
             subseq kept_c cands
             /\ map Entry.text ol
                = map (fun c : Scored.t => Str.strip (Line.text c)) kept_c
             /\ map Entry.page ol
                = map (fun c : Scored.t => Line.page c) kept_c).
  { destruct cands as [|c0 cands'].
    - injection Eo as <-. exists []. repeat split; constructor.
    - assert (Hne : c0 :: cands' <> []) by discriminate.
      destruct (assign_levels_kept Hne Eo)
        as (th & kept & keys & e0 & _ & Hs & Hf & Hp & Hr & _).
      exists kept. split; [exact Hs|].
      destruct (Forall2_same_heading promoted_same_heading Hp) as [Et1 Ep1].
      destruct (Forall2_same_heading repaired_same_heading Hr) as [Et2 Ep2].
      rewrite Et2, Et1, Ep2, Ep1.
      clear - Hf.
      induction Hf as [|c o kept e0 (lv & _ & _ & Et & Ep) _ [It Ip]];
        [auto|]. simpl. now rewrite Et, Ep, It, Ip. }
  destruct Hk as (kept_c & Hs & Et & Ep).
  exists all_lines, (map Scored.line kept_c).
  assert (Hsub : subseq (map Scored.line kept_c) all_lines).
  { rewrite <- Es. apply subseq_map. eapply subseq_trans; eauto. }
  split; [reflexivity|]. split; [exact Hsub|].
  rewrite !map_map. split; [exact Et|]. split; [exact Ep|].
  apply pages_lines_page in Ea.
  pose proof (subseq_Forall Hsub Ea) as Hp.
  apply Forall_forall. intros o Ho.
  apply (in_map Entry.page) in Ho. rewrite Ep in Ho.
  apply in_map_iff in Ho. destruct Ho as (c & <- & Hc).
  rewrite Forall_forall in Hp.
  specialize (Hp (Scored.line c) (in_map Scored.line _ _ Hc)).
  cbv beta in Hp. lia.
Qed.

(** ** The matcher finds a match when there is one *)

Lemma star_complete r :
  (forall w s' pos cap k,
      Re.lang r w -> accepts k s' -> Re.run r pos (w ++ s') cap k <> None) ->
  forall w, Re.lang (Re.Star r) w ->
  forall fuel s' pos cap k,
    length (w ++ s') <= fuel -> accepts k s' ->
    Re.star (Re.run r) fuel pos (w ++ s') cap k <> None.
Proof.
  intros Hstep w L. remember (Re.Star r) as rs eqn:Er.
  induction L as [| | | | | |r0|r0 w1 w2 L1 _ L2 IH2|]; try discriminate;
    injection Er as ->; intros fuel s' pos cap k Hlen Hk.
  - simpl app. destruct fuel as [|fuel]; simpl; [apply Hk|].
    destruct (Re.run r pos s' cap _); [discriminate|apply Hk].
  - destruct w1 as [|c w1]; [apply IH2; auto|].
    destruct fuel as [|fuel]; [simpl in Hlen; lia|].
    rewrite <- app_assoc. cbn [Re.star].
    match goal with
    | |- match ?t with Some _ => _ | None => _ end <> None =>
        assert (Ht : t <> None); [|destruct t; [discriminate|congruence]]
    end.
    apply Hstep; [exact L1|].
    intros pos' cap'.
    replace (Nat.ltb (length (w2 ++ s')) (length ((c :: w1) ++ w2 ++ s')))
      with true.
    + apply IH2; auto.
      rewrite !length_app in *. simpl in Hlen. lia.
    + symmetry. apply Nat.ltb_lt. rewrite !length_app. simpl. lia.
Qed.

Lemma run_complete r :
  anchor_free r ->
  forall w s' pos cap k,
    Re.lang r w -> accepts k s' -> Re.run r pos (w ++ s') cap k <> None.
Proof.
  induction r as [|c|p|r1 IH1 r2 IH2|r1 IH1 r2 IH2|r1 IH1|r1 IH1];
    intros Ha w s' pos cap k L Hk; simpl in Ha.
  - contradiction.
  - inversion L; subst. simpl. rewrite N.eqb_refl. apply Hk.
  - inversion L as [| |? ? Hp| | | | | |]; subst. simpl. rewrite Hp. apply Hk.
  - destruct Ha as [Ha1 Ha2].
    inversion L as [| | |? ? w1 w2 L1 L2| | | | |]; subst.
    rewrite <- app_assoc. simpl. apply IH1; auto.
    intros pos' cap'. apply IH2; auto.
  - destruct Ha as [Ha1 Ha2]. simpl.
    inversion L; subst.
    + destruct (Re.run r1 pos (w ++ s') cap k) eqn:E; [discriminate|].
      exfalso. revert E. apply IH1; auto.
    + destruct (Re.run r1 pos (w ++ s') cap k); [discriminate|].
      apply IH2; auto.
  - simpl. apply star_complete; auto.
  - inversion L; subst. simpl. apply IH1; auto.
    intros pos' cap'. apply Hk.
Qed.

Lemma lang_reads_only (P : N -> Prop) r w :
  Re.lang r w -> reads_only P r -> Forall P w.
Proof.
  induction 1; simpl; intros HP; auto.
  - destruct HP. apply Forall_app. auto.
  - destruct HP. auto.
  - destruct HP. auto.
  - apply Forall_app. auto.
Qed.

Lemma numeral_reads_no_backslash :
  reads_only (fun c => c <> backslash) numeral.
Proof.
  assert (Hd : forall c, digit c = true -> c <> backslash).
  { intros c H ->. discriminate. }
  assert (Hr : forall c, roman c = true -> c <> backslash).
  { intros c H ->. discriminate. }
  assert (Hk : forall c, kanji c = true -> c <> backslash).
  { intros c H ->. discriminate. }
  unfold numeral, decimal_numeral, roman_numeral, chapter_marker, Re.Plus.
  simpl. repeat split; auto; discriminate.
Qed.

Lemma split_at_backslash (a a' r r' : str) :
  Forall (fun c => c <> backslash) a ->
  Forall (fun c => c <> backslash) a' ->
  a ++ backslash :: r = a' ++ backslash :: r' -> a = a' /\ r = r'.
Proof.
  intros H. revert a'. induction H as [|x a Hx H IH]; intros a' H' E.
  - destruct H' as [|y a' Hy H']; simpl in E.
    + injection E as <-. auto.
    + injection E as E1 _. congruence.
  - destruct H' as [|y a' Hy H']; simpl in E.
    + injection E as E1 _. congruence.
    + injection E as <- E. destruct (IH _ H' E) as [-> ->]. auto.
Qed.

(** X8.  [NUM_PAT] matches exactly the texts made of a numeral, a backslash and
    the letter b, and anything after them; the group [num] is the
    numeral. *)
Theorem NUM_PAT_matches_exactly (text : str) (m : Re.rmatch) :
  Re.match_ NUM_PAT text = Some m <->
  exists num rest,
    text = num ++ backslash :: letter_b :: rest
    /\ Re.lang numeral num
    /\ m = {| Re.m_end := length num + 2; Re.m_num := Some num |}.
Proof.
  split.
  - intros H. destruct (NUM_PAT_match_inv _ H) as (num & rest & -> & L & Hn & He).
    exists num, rest. repeat split; auto.
    destruct m as [e n]. simpl in *. now subst.
  - intros (num & rest & -> & L & ->).
    destruct (Re.match_ NUM_PAT (num ++ backslash :: letter_b :: rest))
      as [m|] eqn:E.
    + destruct (NUM_PAT_match_inv _ E) as (num' & rest' & Et & L' & Hn & He).
      apply split_at_backslash in Et as [<- _];
        try (eapply lang_reads_only; eauto using numeral_reads_no_backslash).
      destruct m as [e n]. simpl in *. now subst.
    + exfalso. revert E. unfold Re.match_, NUM_PAT.
      change (Re.run (Re.Num numeral) 0
                (num ++ backslash :: letter_b :: rest) None
                (fun pos1 s1 cap1 =>
                   Re.run (Re.Cat (Re.Chr backslash) (Re.Chr letter_b))
                          pos1 s1 cap1
                          (fun pos _ cap =>
                             Some {| Re.m_end := pos; Re.m_num := cap |}))
              <> None).
      apply run_complete; [| constructor; exact L|].
      * unfold numeral, decimal_numeral, roman_numeral, chapter_marker,
          Re.Plus. simpl. tauto.
      * intros pos cap. simpl. discriminate.
Qed.

(** ** score_lines: lines of one font size *)

Lemma finite_exact_ratio x :
  is_finite x = true -> exists q, statistics.exact_ratio x = Some q.
Proof.
  unfold is_finite, is_nan, is_infinity, statistics.exact_ratio.
  rewrite !eqb_spec, abs_spec.
  change (Prim2SF infinity) with (S754_infinity false).
  destruct (Prim2SF x) as [s|s| |s m e]; simpl; intros H;
    try discriminate; eauto.
  destruct s; discriminate.
Qed.

Lemma exact_ratios_constant x q l :
  statistics.exact_ratio x = Some q -> Forall (fun y => y = x) l ->
  statistics.exact_ratios l = Some (repeat q (length l)).
Proof.
  intros Hq H. induction H as [|y l -> _ IH]; simpl; [reflexivity|].
  now rewrite Hq, IH.
Qed.

Lemma Qsum_repeat q n :
  Qeq (statistics.Qsum (repeat q n)) (Qmult (inject_Z (Z.of_nat n)) q).
Proof.
  unfold statistics.Qsum. induction n as [|n IH].
  - simpl. ring.
  - cbn [repeat fold_right]. rewrite IH, Nat2Z.inj_succ.
    unfold Z.succ. rewrite inject_Z_plus. ring.
Qed.

Lemma Qred_zero q : Qeq q (0 # 1) -> Qred q = (0 # 1)%Q.
Proof. intros H. now rewrite (Qred_complete _ _ H). Qed.

(** The sample deviation of two or more equal finite floats is 0. *)
Lemma stdev_constant x l :
  2 <= length l -> Forall (fun y => y = x) l -> is_finite x = true ->
  statistics.stdev l = Ok 0%float.
Proof.
  intros Hn Hl Hx. unfold statistics.stdev.
  destruct (Nat.ltb_spec (length l) 2); [lia|].
  destruct (finite_exact_ratio _ Hx) as [q Hq].
  rewrite (exact_ratios_constant Hq Hl).
  rewrite map_repeat.
  set (n := inject_Z (Z.of_nat (length l))).
  rewrite Qred_zero; [vm_compute; reflexivity|].
  rewrite !Qsum_repeat. fold n.
  unfold Qdiv. ring.
Qed.

(** With the deviation 0 the font size of a line and the median size do not
    enter its score. *)
Lemma line_score_flat ms ms' ml l :
  line_score ms 0 ml l = line_score ms' 0 ml l.
Proof. reflexivity. Qed.

Lemma filter_all (A : Type) (p : A -> bool) l :
  Forall (fun a => p a = true) l -> filter p l = l.
Proof.
  induction 1 as [|a l Ha _ IH]; simpl; [reflexivity|]. now rewrite Ha, IH.
Qed.

(** X5.  For two or more lines that all have one positive finite font size,
    [score_lines] raises nothing and divides by no deviation: the deviation
    of the sizes is 0, the size term of every score is 0, and the scores are
    those of [line_score] with the deviation 0, whatever the median size. *)
Theorem score_lines_one_size (lines : list Line.t) (x : float) :
  2 <= length lines ->
  Forall (fun l => Line.avg_font_size l = x) lines ->
  positive x = true ->
  is_finite x = true ->
  statistics.stdev (map Line.avg_font_size lines) = Ok 0%float
  /\ exists median_leading,
      forall median_size,
        score_lines lines
        = Ok (map (fun l =>
                     {| Scored.line := l;
                        Scored.score :=
                          line_score median_size 0 median_leading l |})
                  lines).
Proof.
  intros Hn Hall Hpos Hfin.
  assert (Hsz : Forall (fun y => y = x) (map Line.avg_font_size lines)).
  { apply Forall_map. exact Hall. }
  assert (Hsd : statistics.stdev (map Line.avg_font_size lines) = Ok 0%float).
  { apply (stdev_constant (x := x)); auto. now rewrite length_map. }
  split; [exact Hsd|].
  assert (Hne : lines <> []) by (destruct lines; [simpl in Hn; lia|discriminate]).
  rewrite (score_lines_stats Hne). cbv zeta.
  rewrite (filter_all positive (l := map Line.avg_font_size lines)).
  2:{ eapply Forall_impl; [|exact Hsz]. simpl. now intros y ->. }
  set (fs := map Line.avg_font_size lines) in *.
  assert (Hfs : match fs with [] => [10%float] | _ :: _ => fs end = fs).
  { destruct fs eqn:E; [|reflexivity].
    subst fs. destruct lines; [congruence|discriminate]. }
  rewrite Hfs.
  destruct (@median_total fs) as [ms ->].
  { subst fs. destruct lines; [congruence|discriminate]. }
  cbn [bind].
  replace (Nat.ltb 1 (length fs)) with true.
  2:{ symmetry. apply Nat.ltb_lt. subst fs. rewrite length_map. lia. }
  rewrite Hsd. cbn [bind].
  assert (Hml : exists ml,
             match filter positive (map Line.leading lines) with
             | [] => Ok 0%float
             | _ => statistics.median (filter positive (map Line.leading lines))
             end = Ok ml).
  { destruct (filter positive (map Line.leading lines)) eqn:E; [eauto|].
    apply median_total. discriminate. }
  destruct Hml as [ml ->]. cbn [bind].
  exists ml. intros median_size. reflexivity.
Qed.

(** ** assign_levels: repairing twice *)

Lemma demote_fixed outline :
  h3_after_h2 outline -> demote_isolated_h3 [] outline = outline.
Proof.
  intros H.
  destruct (demote_cases outline [] eq_refl)
    as [E|(pre & o & post & -> & Hp & Ho & _)]; [exact E|].
  exfalso.
  specialize (H (length pre) o).
  rewrite nth_error_app2, Nat.sub_diag in H by lia.
  specialize (H eq_refl Ho).
  rewrite firstn_app, Nat.sub_diag, firstn_O, app_nil_r, firstn_all in H.
  apply Exists_exists in H. destruct H as (e & Hin & He).
  rewrite Forall_forall in Hp. destruct (Hp e Hin) as [Hn _]. auto.
Qed.

Lemma guarantee_h1_fixed outline :
  Exists is_H1 outline -> guarantee_h1 outline = outline.
Proof.
  intros H. unfold guarantee_h1.
  replace (existsb (has_level (lit "H1")) outline) with true; [reflexivity|].
  symmetry. apply existsb_has_level. exact H.
Qed.

(** X14.  The two repairs of [assign_levels] leave a repaired outline as it
    is. *)
Theorem repairs_idempotent (outline : list Entry.t) :
  demote_isolated_h3 []
    (guarantee_h1 (demote_isolated_h3 [] (guarantee_h1 outline)))
  = demote_isolated_h3 [] (guarantee_h1 outline).
Proof.
  set (g := guarantee_h1 outline).
  assert (Hq : h3_after_h2 (demote_isolated_h3 [] g)).
  { apply demote_h3_after_h2. intros [|i] o Hi; discriminate. }
  destruct outline as [|o0 rest].
  { reflexivity. }
  destruct (demote_isolated_h3_spec g []) as (g' & Eg & HR).
  simpl in Eg.
  assert (H1g : Exists is_H1 g).
  { apply guarantee_h1_spec. discriminate. }
  rewrite guarantee_h1_fixed.
  - now apply demote_fixed.
  - rewrite Eg. eapply Forall2_Exists; [exact repaired_is_H1|exact HR|exact H1g].
Qed.

(** ** Strings: [strip] *)

Lemma lstrip_idempotent s : Str.lstrip (Str.lstrip s) = Str.lstrip s.
Proof.
  induction s as [|c s IH]; simpl; [reflexivity|].
  destruct (Str.isspace c) eqn:E; [exact IH|]. simpl. now rewrite E.
Qed.

Lemma lstrip_snoc a c :
  Str.isspace c = false -> exists a', Str.lstrip (a ++ [c]) = a' ++ [c].
Proof.
  intros Hc. induction a as [|x a IH]; simpl.
  - rewrite Hc. exists []. reflexivity.
  - destruct (Str.isspace x); [exact IH|]. exists (x :: a). reflexivity.
Qed.

Lemma strip_idempotent s : Str.strip (Str.strip s) = Str.strip s.
Proof.
  unfold Str.strip.
  assert (Hl : Str.lstrip (Str.rstrip (Str.lstrip s))
               = Str.rstrip (Str.lstrip s)).
  { destruct (Str.lstrip s) as [|c u] eqn:Eu; [reflexivity|].
    assert (Hc : Str.isspace c = false).
    { pose proof (lstrip_idempotent s) as Hi. rewrite Eu in Hi.
      simpl in Hi. destruct (Str.isspace c); [|reflexivity].
      exfalso. apply (f_equal (@length N)) in Hi. simpl in Hi.
      assert (Hle : forall t, length (Str.lstrip t) <= length t).
      { induction t as [|y t IHt]; simpl; [lia|].
        destruct (Str.isspace y); simpl; lia. }
      specialize (Hle u). lia. }
    unfold Str.rstrip. simpl rev.
    destruct (@lstrip_snoc (rev u) c Hc) as [a' E]. rewrite E.
    rewrite rev_app_distr. simpl. now rewrite Hc. }
  rewrite Hl. unfold Str.rstrip.
  now rewrite rev_involutive, lstrip_idempotent.
Qed.

Lemma line_dict_text isupper page_num words prev line d :
  line_dict isupper page_num words prev line = Ok d ->
  Line.text d = Str.strip (Str.join (lit " ") (map Word.text line)).
Proof.
  unfold line_dict.
  destruct (Py.min (map Word.x0 line)); [|discriminate]; cbn [bind].
  destruct (Py.max (map Word.x1 line)); [|discriminate]; cbn [bind].
  destruct (Py.min (map Word.top line)); [|discriminate]; cbn [bind].
  destruct (Py.max (map Word.bottom line)); [|discriminate]; cbn [bind].
  destruct (Py.min (map Word.x0 words)); [|discriminate]; cbn [bind].
  intros H. injection H as <-. reflexivity.
Qed.

(** X3.  The text of an extracted line has no whitespace at its ends: [strip]
    leaves it as it is, as it does in the keys and the entries of
    [assign_levels]. *)
Theorem extract_lines_text_stripped (isupper : str -> bool)
        (words : list Word.t) (page_num : Z) (extracted : list Line.t) :
  extract_lines isupper words page_num = Ok extracted ->
  Forall (fun d => Str.strip (Line.text d) = Line.text d) extracted.
Proof.
  intros H. apply Forall_forall. intros d Hd.
  unfold extract_lines in H. destruct words as [|w0 words'].
  { injection H as <-. contradiction. }
  destruct (line_dicts_In _ _ _ _ _ _ H Hd) as (g & prev' & _ & Hg).
  apply line_dict_text in Hg. rewrite Hg. apply strip_idempotent.
Qed.

(** ** candidates: the guards *)

(** X6.  The candidates are scored lines, in their order.  What the selection
    raises comes from [statistics]: an [AttributeError] for a score that is
    infinite or a nan, an [OverflowError] for a mean or a deviation too
    large for a float. *)
Theorem candidates_guards (scored : list Scored.t) :
  (forall cands, candidates scored = Ok cands -> subseq cands scored)
  /\ (forall e, candidates scored = Raise e ->
                e = AttributeError \/ e = OverflowError).
Proof.
  split; [intros cands; apply filterM_subseq|].
  intros e H. unfold candidates in H.
  destruct (scored_threshold scored) as [t|e0] eqn:Et.
  - rewrite (@filterM_ok _ _ (fun l => Py.geb (Scored.score l) t)) in H;
      [discriminate|].
    intros a. reflexivity.
  - destruct scored as [|s0 scored']; [discriminate|].
    simpl in H. injection H as <-.
    unfold scored_threshold in Et.
    change (map Scored.score (s0 :: scored'))
      with (Scored.score s0 :: map Scored.score scored') in Et.
    cbv iota beta in Et.
    destruct (statistics.mean _) as [mn|e1] eqn:Em; cbn [bind] in Et.
    + destruct (Nat.ltb 1 _) eqn:E1; [|discriminate].
      apply Nat.ltb_lt in E1.
      destruct (statistics.stdev _) as [sd|e2] eqn:Es; [discriminate|].
      cbn [bind] in Et. injection Et as <-.
      apply stdev_raises in Es; [exact Es|lia].
    + injection Et as <-. right.
      apply mean_raises in Em; [exact Em|discriminate].
Qed.

(** ** numbering_level and the level of a candidate *)

(** X9.  [numbering_level] raises nothing: it returns no level exactly when
    [NUM_PAT] does not match, and otherwise 1, 2 or 3, never the 0 that the
    test [if n_level] would take for no level. *)
Theorem numbering_level_returns (text : str) :
  exists n,
    numbering_level text = Ok n
    /\ (n = None <-> Re.match_ NUM_PAT text = None)
    /\ (forall k, n = Some k -> (1 <= k <= 3)%Z).
Proof.
  destruct (numbering_level_total text) as [n Hn].
  exists n. split; [exact Hn|]. split.
  - destruct (Re.match_ NUM_PAT text) as [m|] eqn:Em.
    + destruct (NUM_PAT_match_inv _ Em) as (num & rest & _ & _ & Hnum & _).
      rewrite (numbering_level_match _ Em Hnum) in Hn.
      injection Hn as <-. split; discriminate.
    + unfold numbering_level in Hn. rewrite Em in Hn.
      injection Hn as <-. split; reflexivity.
  - intros k ->. now apply numbering_level_range in Hn.
Qed.

(** X10.  The level of a candidate against its font level [f]: it is 1, 2 or 3;
    a numbering can only raise the heading and an indent only lowers it, by
    one level; a candidate of font level 1 has the level 1. *)
Theorem level_of_bounds (th : list float) (c : Scored.t) (lv : Z) :
  level_of th c = Ok lv ->
  exists f,
    font_level th (Line.avg_font_size c) = Ok f
    /\ (1 <= lv <= 3)%Z
    /\ (lv <= f + 1)%Z
    /\ (Py.gtb (Line.indent c) 10 = false -> (lv <= f)%Z)
    /\ (numbering_level (Line.text c) = Ok None -> (f <= lv)%Z)
    /\ (f = 1%Z -> lv = 1%Z).
Proof.
  intros H. pose proof (level_of_range _ _ H) as Hr.
  unfold level_of in H.
  destruct (font_level th (Line.avg_font_size c)) as [f|] eqn:Ef;
    [|discriminate].
  pose proof (font_level_range _ _ Ef) as Hf.
  exists f. split; [reflexivity|]. split; [exact Hr|].
  cbn [bind] in H.
  destruct (numbering_level (Line.text c)) as [[n|]|] eqn:En;
    [| |discriminate]; cbn [bind] in H.
  - apply numbering_level_range in En.
    destruct (Z.eqb_spec n 0); [lia|].
    rewrite zmin_min in H.
    destruct (Z.ltb_spec 1 (Z.min f n)); simpl in H.
    + destruct (Py.gtb (Line.indent c) 10); rewrite ?zmin_min in H;
        injection H as <-; repeat split; try discriminate; intros; lia.
    + injection H as <-. repeat split; try discriminate; intros; lia.
  - destruct (Z.ltb_spec 1 f); simpl in H.
    + destruct (Py.gtb (Line.indent c) 10); rewrite ?zmin_min in H;
        injection H as <-; repeat split; try discriminate; intros; lia.
    + injection H as <-. repeat split; try discriminate; intros; lia.
Qed.

(** ** The further theorems at sample inputs *)

Lemma extract_lines_partition_witness :
  exists groups,
    concat groups = Py.sorted word_lt intro_page
    /\ Permutation (concat groups) intro_page
    /\ Forall (fun g => g <> []) groups
    /\ Forall2 (fun g d => Line.font_names d = map fontname_of g
                           /\ Line.font_sizes d = map size_of g)
               groups [intro_line].
Proof.
  apply (@extract_lines_partition ascii_isupper intro_page 1 [intro_line]).
  vm_compute. reflexivity.
Defined.

Lemma extract_lines_text_stripped_witness :
  Forall (fun d => Str.strip (Line.text d) = Line.text d) [intro_line].
Proof.
  apply (@extract_lines_text_stripped ascii_isupper intro_page 1 [intro_line]).
  vm_compute. reflexivity.
Defined.

Lemma score_lines_one_size_witness :
  statistics.stdev (map Line.avg_font_size one_size_lines) = Ok 0%float
  /\ exists median_leading,
      forall median_size,
        score_lines one_size_lines
        = Ok (map (fun l =>
                     {| Scored.line := l;
                        Scored.score :=
                          line_score median_size 0 median_leading l |})
                  one_size_lines).
Proof.
  apply (@score_lines_one_size one_size_lines 12%float).
  - simpl. lia.
  - repeat constructor.
  - vm_compute. reflexivity.
  - vm_compute. reflexivity.
Defined.

Lemma assign_levels_deduplicates_witness :
  exists kept keys,
    subseq kept repeated_cands
    /\ [lit "Contents"; lit "Contents"]
       = map (fun c : Scored.t => Str.strip (Line.text c)) kept
    /\ [1; 2]%Z = map (fun c : Scored.t => Line.page c) kept
    /\ Forall2 (fun c k => key_of c = Ok k) kept keys
    /\ NoDup keys
    /\ (forall c, In c repeated_cands ->
                  exists k, key_of c = Ok k /\ In k keys).
Proof.
  apply (@assign_levels_deduplicates repeated_cands
           [ {| Entry.level := lit "H1"; Entry.text := lit "Contents";
                Entry.page := 1 |};
             {| Entry.level := lit "H1"; Entry.text := lit "Contents";
                Entry.page := 2 |} ]).
  vm_compute. reflexivity.
Defined.

Lemma assign_levels_h3_after_h2_witness :
  Exists (fun e => Entry.level e = lit "H2")
         (firstn 2
            [ {| Entry.level := lit "H1"; Entry.text := lit "Results";
                 Entry.page := 1 |};
              {| Entry.level := lit "H2"; Entry.text := lit "Methods";
                 Entry.page := 1 |};
              {| Entry.level := lit "H3"; Entry.text := lit "Scope";
                 Entry.page := 2 |} ]).
Proof.
  apply (@assign_levels_h3_after_h2 big_first
           [ {| Entry.level := lit "H1"; Entry.text := lit "Results";
                Entry.page := 1 |};
             {| Entry.level := lit "H2"; Entry.text := lit "Methods";
                Entry.page := 1 |};
             {| Entry.level := lit "H3"; Entry.text := lit "Scope";
                Entry.page := 2 |} ]
           ltac:(vm_compute; reflexivity) 2
           {| Entry.level := lit "H3"; Entry.text := lit "Scope";
              Entry.page := 2 |});
    reflexivity.
Defined.

Lemma one_size_all_H1_witness :
  Forall (fun o => Entry.level o = lit "H1")
         [ {| Entry.level := lit "H1"; Entry.text := lit "Contents";
              Entry.page := 1 |};
           {| Entry.level := lit "H1"; Entry.text := lit "Contents";
              Entry.page := 2 |} ].
Proof.
  apply (@one_size_all_H1 repeated_cands _ 12%float).
  - repeat constructor.
  - vm_compute. reflexivity.
  - vm_compute. reflexivity.
Defined.

Lemma process_pdf_outline_witness :
  exists all_lines kept,
    pages_lines ascii_isupper 1 (pages intro_pdf) = Ok all_lines
    /\ subseq kept all_lines
    /\ [lit "1. Introduction"] = map (fun l => Str.strip (Line.text l)) kept
    /\ [1%Z] = map Line.page kept
    /\ Forall (fun o => (1 <= Entry.page o
                         <= Z.of_nat (length (pages intro_pdf)))%Z)
              [ {| Entry.level := lit "H1";
                   Entry.text := lit "1. Introduction";
                   Entry.page := 1 |} ].
Proof.
  apply (@process_pdf_outline ascii_lower ascii_isupper intro_pdf
           {| title := Some (lit "1. Introduction");
              outline := [ {| Entry.level := lit "H1";
                              Entry.text := lit "1. Introduction";
                              Entry.page := 1 |} ] |}).
  vm_compute. reflexivity.
Defined.

Lemma level_of_bounds_witness :
  exists f,
    font_level [14; 12; 10]%float 12 = Ok f
    /\ (1 <= 2 <= 3)%Z
    /\ (2 <= f + 1)%Z
    /\ (Py.gtb 0 10 = false -> (2 <= f)%Z)
    /\ (numbering_level (lit "Methods") = Ok None -> (f <= 2)%Z)
    /\ (f = 1%Z -> 2%Z = 1%Z).
Proof.
  apply (@level_of_bounds [14; 12; 10]%float
           (mk_scored (mk_line 1 "Methods" 12 72 140 200 212 90 0 true) 4) 2).
  vm_compute. reflexivity.
Defined.

(** ** process_pdf: the order of the outline and the title *)

Lemma assign_levels_headings cands outline :
  assign_levels cands = Ok outline ->
  exists kept,
    subseq kept cands
    /\ map Entry.text outline
       = map (fun c : Scored.t => Str.strip (Line.text c)) kept
    /\ map Entry.page outline = map (fun c : Scored.t => Line.page c) kept.
Proof.
  intros Eo. destruct cands as [|c0 cands'].
  - injection Eo as <-. exists []. repeat split; constructor.
  - assert (Hne : c0 :: cands' <> []) by discriminate.
    destruct (assign_levels_kept Hne Eo)
      as (th & kept & keys & e0 & _ & Hs & Hf & Hp & Hr & _).
    exists kept. split; [exact Hs|].
    destruct (Forall2_same_heading promoted_same_heading Hp) as [Et1 Ep1].
    destruct (Forall2_same_heading repaired_same_heading Hr) as [Et2 Ep2].
    rewrite Et2, Et1, Ep2, Ep1.
    clear - Hf.
    induction Hf as [|c o kept e0 (lv & _ & _ & Et & Ep) _ [It Ip]];
      [auto|]. simpl. now rewrite Et, Ep, It, Ip.
Qed.

Lemma StronglySorted_app (l1 l2 : list Z) :
  StronglySorted Z.le l1 -> StronglySorted Z.le l2 ->
  (forall a b, In a l1 -> In b l2 -> (a <= b)%Z) ->
  StronglySorted Z.le (l1 ++ l2).
Proof.
  intros H1 H2 H. induction H1 as [|a l1 Hs IH Ha]; simpl; [exact H2|].
  constructor.
  - apply IH. intros x y Hx Hy. apply H; [right; exact Hx|exact Hy].
  - apply Forall_app. split; [exact Ha|].
    apply Forall_forall. intros y Hy. apply H; [left; reflexivity|exact Hy].
Qed.

Lemma subseq_StronglySorted (l1 l2 : list Z) :
  subseq l1 l2 -> StronglySorted Z.le l2 -> StronglySorted Z.le l1.
Proof.
  induction 1 as [|x l1 l2 H IH|x l1 l2 H IH]; intros Hs.
  - constructor.
  - inversion Hs; subst. auto.
  - inversion Hs as [|? ? Hs' Hx]; subst. constructor; [auto|].
    eapply subseq_Forall; eauto.
Qed.

Lemma pages_lines_sorted isupper pages : forall start all_lines,
  pages_lines isupper start pages = Ok all_lines ->
  StronglySorted Z.le (map Line.page all_lines).
Proof.
  induction pages as [|page rest IH]; intros start all_lines H; simpl in H.
  - injection H as <-. constructor.
  - destruct (extract_lines isupper page start) as [ls|] eqn:El;
      [|discriminate].
    cbn [bind] in H.
    destruct (pages_lines isupper (start + 1) rest) as [more|] eqn:Em;
      [|discriminate].
    cbn [bind] in H. injection H as <-.
    apply extract_lines_page in El.
    pose proof (pages_lines_page _ _ _ Em) as Hm.
    rewrite map_app. apply StronglySorted_app.
    + clear - El. induction El as [|d ls Hd Hl IH]; simpl; constructor; auto.
      apply Forall_map. eapply Forall_impl; [|exact Hl].
      simpl. intros d' ->. lia.
    + eapply IH; eauto.
    + intros a b Ha Hb.
      apply in_map_iff in Ha. destruct Ha as (d & <- & Hd).
      apply in_map_iff in Hb. destruct Hb as (d' & <- & Hd').
      rewrite Forall_forall in El, Hm.
      rewrite (El d Hd). specialize (Hm d' Hd'). simpl in Hm. lia.
Qed.

(** The steps of [process_pdf] when it returns. *)
Lemma process_pdf_inv lower isupper doc r :
  process_pdf lower isupper doc = Ok r ->
  exists all_lines scored cands,
    pages_lines isupper 1 (pages doc) = Ok all_lines
    /\ map Scored.line scored = all_lines
    /\ subseq cands scored
    /\ detect_title lower (metadata_title doc) scored cands = Ok (title r)
    /\ assign_levels cands = Ok (outline r).
Proof.
  unfold process_pdf. intros H.
  destruct (pages_lines isupper 1 (pages doc)) as [all_lines|] eqn:Ea;
    [|discriminate].
  cbn [bind] in H.
  unfold drop_repeating_headers, merge_wrapped_heading_lines in H.
  destruct (score_lines all_lines) as [scored|] eqn:Es; [|discriminate].
  cbn [bind] in H.
  destruct (candidates scored) as [cands|] eqn:Ec; [|discriminate].
  cbn [bind] in H.
  destruct (detect_title _ _ _ _) as [t|] eqn:Et; [|discriminate].
  cbn [bind] in H.
  destruct (assign_levels cands) as [ol|] eqn:Eo; [|discriminate].
  cbn [bind] in H. injection H as <-. simpl.
  exists all_lines, scored, cands.
  apply score_lines_keeps_lines in Es. apply filterM_subseq in Ec.
  auto.
Qed.

(** X17.  The pages of the outline of a document never decrease, and a document
    with an entry in its outline has a title. *)
Theorem process_pdf_order_and_title (lower : str -> str)
        (isupper : str -> bool) (doc : pdf) (r : outline_result) :
  process_pdf lower isupper doc = Ok r ->
  StronglySorted Z.le (map Entry.page (outline r))
  /\ (title r = None -> outline r = []).
Proof.
  intros H.
  destruct (process_pdf_inv _ _ _ H)
    as (all_lines & scored & cands & Ea & Es & Ec & Et & Eo).
  split.
  - destruct (assign_levels_headings _ Eo) as (kept & Hs & _ & Ep).
    rewrite Ep.
    apply pages_lines_sorted in Ea. rewrite <- Es in Ea.
    rewrite map_map in Ea.
    eapply subseq_StronglySorted; [|exact Ea].
    apply subseq_map. eapply subseq_trans; eauto.
  - intros Hn. rewrite Hn in Et. apply detect_title_none in Et.
    rewrite Et in Eo. simpl in Eo. now injection Eo as <-.
Qed.

Lemma process_pdf_order_and_title_witness :
  (process_pdf ascii_lower ascii_isupper chapters_pdf = Ok chapters_result
   /\ StronglySorted Z.le [1; 2]%Z
   /\ (title chapters_result = None -> outline chapters_result = []))
  /\ (process_pdf ascii_lower ascii_isupper untitled_pdf
      = Ok {| title := None; outline := [] |}
      /\ StronglySorted Z.le (@nil Z)
      /\ (@None str = None -> @nil Entry.t = [])).
Proof.
  split.
  - assert (H : process_pdf ascii_lower ascii_isupper chapters_pdf
                = Ok chapters_result) by (vm_compute; reflexivity).
    split; [exact H|].
    exact (process_pdf_order_and_title ascii_lower ascii_isupper
             chapters_pdf H).
  - assert (H : process_pdf ascii_lower ascii_isupper untitled_pdf
                = Ok {| title := None; outline := [] |})
      by (vm_compute; reflexivity).
    split; [exact H|].
    exact (process_pdf_order_and_title ascii_lower ascii_isupper
             untitled_pdf H).
Defined.

(** ** main: what is written for a file *)

Lemma assign_levels_well_formed cands outline :
  assign_levels cands = Ok outline ->
  Forall level_ok outline
  /\ (outline <> [] -> Exists is_H1 outline)
  /\ h3_after_h2 outline.
Proof.
  intros H. destruct cands as [|c0 cands'].
  { injection H as <-. repeat split; [constructor|congruence|].
    intros [|i] o Hi; discriminate. }
  assert (Hne : c0 :: cands' <> []) by discriminate.
  destruct (assign_levels_inv Hne H)
    as (o0 & g & _ & Hne0 & Hok & -> & -> & HR).
  destruct (guarantee_h1_spec o0) as [HG HH1].
  repeat split.
  - eapply Forall2_Forall; [exact repaired_level_ok|exact HR|].
    eapply Forall2_Forall; [|exact HG|exact Hok].
    intros x y [->| ->] Hx; [exact Hx|]. left. reflexivity.
  - intros _. eapply Forall2_Exists; [exact repaired_is_H1|exact HR|auto].
  - apply demote_h3_after_h2. intros [|i] o Hi; discriminate.
Qed.

(** X18.  Whatever the document, and whether [process_pdf] raises or not, the
    result that [main] writes is well formed: the levels are H1, H2 and H3,
    an outline with an entry has an H1 and a title, every H3 has an H2
    before it, and the pages never decrease and are pages of the
    document. *)
Theorem main_result_well_formed (lower : str -> str) (isupper : str -> bool)
        (doc : pdf) :
  let r := main_result lower isupper doc in
  Forall (fun o => Entry.level o = lit "H1" \/ Entry.level o = lit "H2"
                   \/ Entry.level o = lit "H3") (outline r)
  /\ (outline r <> [] ->
      Exists (fun o => Entry.level o = lit "H1") (outline r)
      /\ title r <> None)
  /\ (forall i o,
        nth_error (outline r) i = Some o ->
        Entry.level o = lit "H3" ->
        Exists (fun e => Entry.level e = lit "H2") (firstn i (outline r)))
  /\ StronglySorted Z.le (map Entry.page (outline r))
  /\ Forall (fun o => (1 <= Entry.page o <= Z.of_nat (length (pages doc)))%Z)
            (outline r).
Proof.
  unfold main_result.
  destruct (process_pdf lower isupper doc) as [r|e] eqn:H; cbv zeta.
  2:{ simpl. repeat split; try constructor; try congruence.
      intros [|i] o Hi; discriminate. }
  destruct (process_pdf_inv _ _ _ H)
    as (all_lines & scored & cands & Ea & Es & Ec & Et & Eo).
  destruct (assign_levels_well_formed _ Eo) as (Hok & Hh1 & Hh3).
  destruct (assign_levels_headings _ Eo) as (kept & Hs & _ & Ep).
  assert (Hsub : subseq (map Scored.line kept) all_lines).
  { rewrite <- Es. apply subseq_map. eapply subseq_trans; eauto. }
  split; [exact Hok|]. split; [|split; [exact Hh3|split]].
  - intros Hne. split; [now apply Hh1|].
    intros Hn. rewrite Hn in Et. apply detect_title_none in Et.
    rewrite Et in Eo. simpl in Eo. injection Eo as Eo. auto.
  - rewrite Ep. apply pages_lines_sorted in Ea.
    rewrite <- (map_map Scored.line Line.page).
    eapply subseq_StronglySorted; [|exact Ea].
    now apply subseq_map.
  - apply pages_lines_page in Ea.
    pose proof (subseq_Forall Hsub Ea) as Hp.
    apply Forall_forall. intros o Ho.
    apply (in_map Entry.page) in Ho. rewrite Ep in Ho.
    apply in_map_iff in Ho. destruct Ho as (c & <- & Hc).
    rewrite Forall_forall in Hp.
    specialize (Hp (Scored.line c) (in_map Scored.line _ _ Hc)).
    cbv beta in Hp. lia.
Qed.
